(** * apollo-server: the middleware dispatcher, the transport adapter and
    the server builder

    A shallow embedding of [src/lib/RequestHandler.js], [src/lib/Server.js]
    and [src/lib/ServerBuilder.js].

    JavaScript objects live in an explicit store: an array is a heap cell
    addressed by a location, so that [Array.prototype.slice] (a fresh cell)
    and [Array.prototype.shift] / [push] (in-place updates of a cell) keep
    the aliasing the source has.  A promise is represented by the value it
    settles to; an [async] function is run up to that value, one logical
    task per request. *)

From stdpp Require Import base option list strings gmap fin_maps.

(** ** JavaScript values shared by the three classes *)

(** [new Error(message)]. *)
Record JsError := Error { message : string }.

(** The settled state of a [Promise.<A>]; a synchronous [throw] inside an
    [async] function is a rejection of the promise it returns. *)
Inductive Settled (A : Type) : Type :=
| Fulfilled (value : A)
| Rejected (reason : JsError).
Arguments Fulfilled {A} value.
Arguments Rejected {A} reason.

(** [Array.prototype.join(separator)] on an array of strings. *)
Fixpoint join (separator : string) (values : list string) : string :=
  match values with
  | [] => ""
  | [v] => v
  | v :: rest => v +:+ separator +:+ join separator rest
  end.

(** ** src/lib/RequestHandler.js *)

Module RequestHandler.
Section Dispatch.
Context {Request Response : Type}.

(** How a middleware unit reaches the handler function behind the
    next-handler it was given: [next(request)] or
    [next.property(request)], e.g. [next.handle(request)]. *)
Inductive Access : Type :=
| Call
| Member (property : string).

(** The body of a [process(request, requestHandler)] method, as the
    sequence of interactions it has with the dispatcher.  A unit may
    return a response, throw, invoke its next-handler (any number of
    times, the continuation receives the settled promise, so it can
    catch a rejection) and, holding a reference to the dispatcher,
    register further middleware.  Another task that runs while the unit is
    suspended at an [await] reaches this call only through the dispatcher:
    a [handle] of its own works on a copy of its own, and what it or its
    units register comes in through [addMiddleware], which is represented
    the same way. *)
Inductive Prog : Type :=
| Return (response : Response)
| Throw (error : JsError)
| Next (access : Access) (request : Request) (k : Settled Response -> Prog)
| AddMiddleware (unit_process : Request -> Prog) (k : Prog).

(** [MiddlewareInterface]. *)
Record Middleware := { process : Request -> Prog }.

(** *** The store *)

Definition loc := nat.

(** Ghost record of what happened, in order: [Processed m r] when the
    dispatcher called [m.process(r, _)], [Pushed m] when
    [addMiddleware(m)] ran. *)
Inductive Event : Type :=
| Processed (m : Middleware) (request : Request)
| Pushed (m : Middleware).

Record State := {
  heap : list (list Middleware);
  log : list Event
}.

Definition array_at (st : State) (l : loc) : list Middleware :=
  default [] (heap st !! l).

Definition array_set (l : loc) (a : list Middleware) (st : State) : State :=
  {| heap := <[l := a]> (heap st); log := log st |}.

(** A fresh array holding [a]. *)
Definition alloc (a : list Middleware) (st : State) : loc * State :=
  (length (heap st), {| heap := heap st ++ [a]; log := log st |}).

Definition record (e : Event) (st : State) : State :=
  {| heap := heap st; log := log st ++ [e] |}.

(** [array.push(m)]. *)
Definition push (l : loc) (m : Middleware) (st : State) : State :=
  array_set l (array_at st l ++ [m]) st.

(** [array.slice()]: a shallow copy in a fresh cell. *)
Definition slice (l : loc) (st : State) : loc * State :=
  alloc (array_at st l) st.

(** [array.shift()]: removes and returns the first element, [undefined]
    ([None]) on an empty array. *)
Definition shift (l : loc) (st : State) : option Middleware * State :=
  match array_at st l with
  | [] => (None, st)
  | m :: rest => (Some m, array_set l rest st)
  end.

(** *** The class *)

(** The object: [this.middleware] holds a reference to an array. *)
Record RequestHandler := { middleware : loc }.

(** [constructor()]: [this.middleware = []]. *)
Definition constructor (st : State) : RequestHandler * State :=
  let '(l, st') := alloc [] st in ({| middleware := l |}, st').

(** [addMiddleware(middleware)]: [this.middleware.push(middleware)]. *)
Definition addMiddleware (this : RequestHandler) (m : Middleware)
    (st : State) : State :=
  push (middleware this) m st.

(** A handler function [request => ...], called in a store. *)
Definition HandlerFunction : Type :=
  Request -> State -> option (Settled Response * State).

(** [new Proxy(target, handler)] with a [get] trap and nothing else. *)
Record Proxy := {
  target : HandlerFunction;
  get : HandlerFunction -> string -> HandlerFunction
}.

(** [createRequestHandler(handlerFunction)]:
    [new Proxy(handlerFunction, {get: target => target})]. *)
Definition createRequestHandler (handlerFunction : HandlerFunction) : Proxy :=
  {| target := handlerFunction; get := fun target _ => target |}.

(** The function that ends up being called: a call of the proxy has no
    [apply] trap and reaches the target; a property read goes through the
    [get] trap. *)
Definition resolve (requestHandler : Proxy) (access : Access) : HandlerFunction :=
  match access with
  | Call => target requestHandler
  | Member property => get requestHandler (target requestHandler) property
  end.

Definition NoMiddlewareAvailable : JsError :=
  Error "No middleware available to process request".

(** What [undefined.process] raises. *)
Definition UndefinedProcess : JsError :=
  Error "Cannot read properties of undefined (reading 'process')".

(** Running the body of a unit against the next-handler it was given.
    [None] only when a nested dispatch ran out of fuel. *)
Fixpoint exec (this : RequestHandler) (requestHandler : Proxy) (p : Prog)
    (st : State) : option (Settled Response * State) :=
  match p with
  | Return response => Some (Fulfilled response, st)
  | Throw error => Some (Rejected error, st)
  | Next access request k =>
      match resolve requestHandler access request st with
      | None => None
      | Some (settled, st') => exec this requestHandler (k settled) st'
      end
  | AddMiddleware unit_process k =>
      let m := {| process := unit_process |} in
      exec this requestHandler k (record (Pushed m) (addMiddleware this m st))
  end.

(** [async handleRequest(request, middleware)].  [fuel] bounds the depth
    of nested dispatches. *)
Fixpoint handleRequest (fuel : nat) (this : RequestHandler)
    (request : Request) (middleware : loc) (st : State)
    : option (Settled Response * State) :=
  match fuel with
  | 0 => None
  | S fuel' =>
      if length (array_at st middleware) =? 0
      then Some (Rejected NoMiddlewareAvailable, st)
      else
        match shift middleware st with
        | (None, st') => Some (Rejected UndefinedProcess, st')
        | (Some m, st') =>
            exec this
              (createRequestHandler
                 (fun request => handleRequest fuel' this request middleware))
              (process m request)
              (record (Processed m request) st')
        end
  end.

(** [handle(request)]:
    [this.handleRequest(request, this.middleware.slice())].  Every nested
    dispatch has removed one unit from the copy, so one more than its
    length is fuel enough ([handle_total]). *)
Definition handle (this : RequestHandler) (request : Request) (st : State)
    : option (Settled Response * State) :=
  let '(queue, st') := slice (middleware this) st in
  handleRequest (S (length (array_at st' queue))) this request queue st'.

(** *** Reading the ghost record *)

(** The [process] calls of a run, in order, each with the request it
    received. *)
Fixpoint processed (events : list Event) : list (Middleware * Request) :=
  match events with
  | [] => []
  | Processed m request :: rest => (m, request) :: processed rest
  | Pushed _ :: rest => processed rest
  end.

(** The units registered during a run, in order. *)
Fixpoint pushed (events : list Event) : list Middleware :=
  match events with
  | [] => []
  | Processed _ _ :: rest => pushed rest
  | Pushed m :: rest => m :: pushed rest
  end.

(** The dispatcher object exists in the store. *)
Definition valid (this : RequestHandler) (st : State) : Prop :=
  middleware this < length (heap st).

(** *** What a run does to the store

    [Step this q st st' events]: from [st] to [st'] the ghost record grew by
    [events], no cell was created, the queue [q] lost exactly the units
    that were processed, from its front, and the registered list gained
    exactly the units that were pushed, at its end. *)
Record Step (this : RequestHandler) (q : loc) (st st' : State)
    (events : list Event) : Prop := {
  step_log : log st' = log st ++ events;
  step_heap : length (heap st') = length (heap st);
  step_queue : array_at st q = (processed events).*1 ++ array_at st' q;
  step_registered :
    array_at st' (middleware this) = array_at st (middleware this) ++ pushed events;
  step_frame : forall l, l <> q -> l <> middleware this ->
    array_at st' l = array_at st l
}.

(** *** The contract on middleware units

    The spec allows a unit to call its next-handler at most once. *)

(** The request of the first next-handler call of a body, if it makes one. *)
Fixpoint next_request (p : Prog) : option Request :=
  match p with
  | Return _ | Throw _ => None
  | Next _ request _ => Some request
  | AddMiddleware _ k => next_request k
  end.

(** The body never calls the next-handler. *)
Inductive NoNext : Prog -> Prop :=
| NoNext_Return response : NoNext (Return response)
| NoNext_Throw error : NoNext (Throw error)
| NoNext_Add unit_process k : NoNext k -> NoNext (AddMiddleware unit_process k).

(** The body calls the next-handler at most once, whatever that call
    settles to. *)
Inductive AtMostOnce : Prog -> Prop :=
| AtMostOnce_Return response : AtMostOnce (Return response)
| AtMostOnce_Throw error : AtMostOnce (Throw error)
| AtMostOnce_Next access request k :
    (forall settled, NoNext (k settled)) -> AtMostOnce (Next access request k)
| AtMostOnce_Add unit_process k :
    AtMostOnce k -> AtMostOnce (AddMiddleware unit_process k).

Definition WellBehaved (m : Middleware) : Prop :=
  forall request, AtMostOnce (process m request).

(** The unit hands on to the rest of the chain and lets a failure of the
    rest through: [return await next(request')] without a [try]. *)
Definition Propagates (m : Middleware) : Prop :=
  forall request, exists access request' k,
    process m request = Next access request' k /\
    (forall settled, NoNext (k settled)) /\
    (forall error, k (Rejected error) = Throw error).

(** *** The dispatch as the spec words it

    "Remove the head unit, invoke its process(request, next) where next,
    when invoked with a (possibly modified) request, recursively performs
    the same dispatch step against the now-one-shorter queue"; an empty
    queue fails with NoMiddlewareAvailable.  Here every next-handler owns its
    remainder of the queue by value. *)

(** What a body settles to when its next-handler answers as [rest] says. *)
Fixpoint spec_answer (rest : Request -> Settled Response) (p : Prog)
    : Settled Response :=
  match p with
  | Return response => Fulfilled response
  | Throw error => Rejected error
  | Next _ request k => spec_answer rest (k (rest request))
  | AddMiddleware _ k => spec_answer rest k
  end.

Fixpoint spec_outcome (units : list Middleware) (request : Request)
    : Settled Response :=
  match units with
  | [] => Rejected NoMiddlewareAvailable
  | m :: units' => spec_answer (spec_outcome units') (process m request)
  end.

(** The units the spec's dispatch invokes, each with the request it
    receives: registration order, until a unit does not call [next]. *)
Fixpoint spec_chain (units : list Middleware) (request : Request)
    : list (Middleware * Request) :=
  match units with
  | [] => []
  | m :: units' =>
      (m, request) ::
      match next_request (process m request) with
      | Some request' => spec_chain units' request'
      | None => []
      end
  end.

(** Every unit the chain reaches calls its next-handler at most once on
    the request it receives. *)
Definition Disciplined (units : list Middleware) (request : Request) : Prop :=
  Forall (fun mr => AtMostOnce (process mr.1 mr.2)) (spec_chain units request).

(** The unit calls its next-handler whatever request it receives. *)
Definition CallsNext (m : Middleware) : Prop :=
  forall request, is_Some (next_request (process m request)).

(** The unit never calls its next-handler. *)
Definition Terminal (m : Middleware) : Prop :=
  forall request, NoNext (process m request).

(** A reading of "every downstream unit receives exactly the request a
    unit passed to next": in the sequence of [process] calls of a run,
    whenever the unit at position [i] called next with [request'], every
    unit at a later position received [request']. *)
Definition downstream_receives_exactly
    (calls : list (Middleware * Request)) : Prop :=
  forall i j m request request' m' received,
    i < j ->
    calls !! i = Some (m, request) ->
    next_request (process m request) = Some request' ->
    calls !! j = Some (m', received) ->
    received = request'.

(** *** A client of the public interface *)

Inductive Operation : Type :=
| DoAddMiddleware (m : Middleware)
| DoHandle (request : Request).

(** A sequence of calls on one dispatcher; the settled responses are
    dropped, [addMiddleware] calls are entered in the ghost record. *)
Fixpoint run (this : RequestHandler) (operations : list Operation)
    (st : State) : option State :=
  match operations with
  | [] => Some st
  | DoAddMiddleware m :: rest =>
      run this rest (record (Pushed m) (addMiddleware this m st))
  | DoHandle request :: rest =>
      match handle this request st with
      | None => None
      | Some (_, st') => run this rest st'
      end
  end.

(** *** Further behaviours of units *)

(** [return await next(request')]: the unit hands on and returns what the
    rest of the chain settles to, response or failure, as it is. *)
Definition Transparent (m : Middleware) : Prop :=
  forall request, exists access request' k,
    process m request = Next access request' k /\
    (forall response, k (Fulfilled response) = Return response) /\
    (forall error, k (Rejected error) = Throw error).

(** [try { return await next(request') } catch (error) { return
    recover(error) }]: an error-handling unit. *)
Definition Recovers (recover : JsError -> Response) (m : Middleware) : Prop :=
  forall request, exists access request' k,
    process m request = Next access request' k /\
    (forall response, k (Fulfilled response) = Return response) /\
    (forall error, k (Rejected error) = Return (recover error)).

(** The unit answers every request with [response]. *)
Definition Responds (response : Response) (m : Middleware) : Prop :=
  forall request, process m request = Return response.

End Dispatch.
End RequestHandler.

(** ** src/lib/Server.js *)

Module Server.

(** What the adapter reads of an [http.IncomingMessage]: [req.method],
    [req.url], [req.headers.host] ([None] when the property is
    [undefined]) and [req.rawHeaders]. *)
Record IncomingMessage := {
  method : string;
  url : string;
  host : option string;
  rawHeaders : list string
}.

(** [RequestInterface] of the HTTP library: what the adapter calls, and
    the reading of the values of a header, in their order.  The value
    handed to [withHeader] is [undefined] ([None]) when [rawHeaders] is read
    past its end. *)
Class RequestInterface (Request : Type) := {
  withBody : Request -> IncomingMessage -> Request;
  withHeader : Request -> string -> option string -> Request;
  header_values : Request -> string -> list string
}.

(** [RequestFactoryInterface]: [createRequest(method, url)]. *)
Class RequestFactoryInterface (Request : Type) := {
  createRequest : string -> string -> Request
}.

(** Modelled from the spec: the header contract of the HTTP library's
    Request, which is not part of this repository.  "Headers (ordered
    multi-map, name to ordered set of values)"; a with-header operation
    returns a new value in which the name has gained the value, after the
    values it already had; a new Request has no headers and [withBody]
    leaves them alone. *)
Class HeaderContract (Request : Type) `{RequestInterface Request}
    `{RequestFactoryInterface Request} : Prop := {
  header_values_createRequest method url name :
    header_values (createRequest method url) name = [];
  header_values_withBody request body name :
    header_values (withBody request body) name = header_values request name;
  header_values_withHeader request name value name' :
    header_values (withHeader request name (Some value)) name' =
    if decide (name = name')
    then header_values request name' ++ [value]
    else header_values request name'
}.

(** A template literal writes [undefined] for an undefined value. *)
Definition template (value : option string) : string :=
  default "undefined" value.

(** The flat array [name, value, name, value, ...] of a list of pairs. *)
Fixpoint flat (pairs : list (string * string)) : list string :=
  match pairs with
  | [] => []
  | (name, value) :: rest => name :: value :: flat rest
  end.

Section Adapter.
Context {Request Body : Type}.
Context `{RequestInterface Request} `{RequestFactoryInterface Request}.

(** [ResponseInterface] as the adapter reads it; [headers] is an object
    from header name to the array of its values. *)
Record Response := {
  statusCode : nat;
  reasonPhrase : string;
  headers : gmap string (list string);
  body : Body
}.

(** What is done to the [http.ServerResponse]. *)
Inductive Output : Type :=
| Pipe (source : Body)
| WriteHead (statusCode : nat) (reasonPhrase : string)
    (headers : gmap string string).

(** The object.  [requestHandler] is any [RequestHandlerInterface], given
    by the promise its [handle] returns; [urlScheme] is fixed by the
    constructor. *)
Record Server := {
  requestHandler : Request -> Settled Response;
  urlScheme : string
}.

(** [constructor(nodeServer, requestHandler, requestFactory, logger)];
    [isHttps] is [nodeServer instanceof HttpsServer].  The events it
    listens to are returned with the object. *)
Definition constructor (isHttps : bool)
    (requestHandler : Request -> Settled Response) : Server * list string :=
  ({| requestHandler := requestHandler;
      urlScheme := if isHttps then "https" else "http" |},
   ["listening"; "close"; "request"]).

(** Lines 106-108 of [handleRequest]:
    [for (let i = 0; i < req.rawHeaders.length; i += 2)
       request = request.withHeader(req.rawHeaders[i], req.rawHeaders[i + 1])].
    [steps] bounds the number of iterations. *)
Fixpoint withRawHeaders (steps : nat) (rawHeaders : list string) (i : nat)
    (request : Request) : Request :=
  match steps with
  | 0 => request
  | S steps' =>
      if i <? length rawHeaders
      then
        match rawHeaders !! i with
        | Some name =>
            withRawHeaders steps' rawHeaders (i + 2)
              (withHeader request name (rawHeaders !! (i + 1)))
        | None => request
        end
      else request
  end.

(** Lines 101-108 of [handleRequest]: the Request handed to the
    dispatcher. *)
Definition incomingRequest (this : Server) (req : IncomingMessage) : Request :=
  let request :=
    withBody
      (createRequest (method req)
         (urlScheme this +:+ "://" +:+ template (host req) +:+ url req))
      req in
  withRawHeaders (length (rawHeaders req)) (rawHeaders req) 0 request.

(** Lines 116-119 of [handleRequest]:
    [Object.entries(response.headers).reduce((headers, [name, values]) =>
       ({...headers, [name]: values.join(",")}), {})]. *)
Definition joinedHeaders (headers : gmap string (list string))
    : gmap string string :=
  foldl (fun headers '(name, values) => <[name := join "," values]> headers)
    ∅ (map_to_list headers).

(** [async handleRequest(req, res)]: what is written to [res], or the
    rejection of the dispatcher, which nothing here catches. *)
Definition handleRequest (this : Server) (req : IncomingMessage)
    : Settled (list Output) :=
  match requestHandler this (incomingRequest this req) with
  | Rejected reason => Rejected reason
  | Fulfilled response =>
      Fulfilled
        [Pipe (body response);
         WriteHead (statusCode response) (reasonPhrase response)
           (joinedHeaders (headers response))]
  end.

(** *** The node server and the logger

    What [nodeServer.address()] returns once the server is bound. *)
Record AddressInfo := {
  address : string;
  family : string;
  port : nat
}.

(** The [net.Server] as the adapter uses it: what [address()] returns
    ([None] for [null]) and the calls it has received, [listen(port)] with
    the port it was given ([None] for [undefined]) and [close()]. *)
Record NodeServer := {
  bound : option AddressInfo;
  listenCalls : list (option nat);
  closeCalls : nat
}.

(** [logger.info(message, context)]; [context] is [None] when the call
    has one argument. *)
Inductive LogEntry : Type :=
| Info (message : string) (context : option (option AddressInfo)).

(** The adapter at work: its node server, what its logger was told and
    what became of the requests it handled. *)
Record Running := {
  nodeServer : NodeServer;
  logger : list LogEntry;
  handled : list (Settled (list Output))
}.

(** [start(port)]: [this.nodeServer.listen(port)]. *)
Definition start (this : Server) (port : option nat) (w : Running) : Running :=
  {| nodeServer :=
       {| bound := bound (nodeServer w);
          listenCalls := listenCalls (nodeServer w) ++ [port];
          closeCalls := closeCalls (nodeServer w) |};
     logger := logger w; handled := handled w |}.

(** [stop()]: [this.nodeServer.close()]. *)
Definition stop (this : Server) (w : Running) : Running :=
  {| nodeServer :=
       {| bound := bound (nodeServer w);
          listenCalls := listenCalls (nodeServer w);
          closeCalls := S (closeCalls (nodeServer w)) |};
     logger := logger w; handled := handled w |}.

(** The events the constructor listens to. *)
Inductive NodeEvent : Type :=
| ListeningEvent
| CloseEvent
| RequestEvent (req : IncomingMessage).

Definition event_name (event : NodeEvent) : string :=
  match event with
  | ListeningEvent => "listening"
  | CloseEvent => "close"
  | RequestEvent _ => "request"
  end.

(** The three listeners of the constructor (lines 64-70), run when the
    node server emits the event. *)
Definition listener (this : Server) (event : NodeEvent) (w : Running) : Running :=
  match event with
  | ListeningEvent =>
      {| nodeServer := nodeServer w;
         logger := logger w ++
           [Info "server is listening on port {port}"
              (Some (bound (nodeServer w)))];
         handled := handled w |}
  | CloseEvent =>
      {| nodeServer := nodeServer w;
         logger := logger w ++ [Info "server is shutting down" None];
         handled := handled w |}
  | RequestEvent req =>
      {| nodeServer := nodeServer w;
         logger := logger w;
         handled := handled w ++ [handleRequest this req] |}
  end.

(** What happens to a running adapter: a call of its interface or an
    event of its node server. *)
Inductive Interaction : Type :=
| Start (port : option nat)
| Stop
| Emit (event : NodeEvent).

Definition interact (this : Server) (i : Interaction) (w : Running) : Running :=
  match i with
  | Start port => start this port w
  | Stop => stop this w
  | Emit event => listener this event w
  end.

(** The ports of the [start] calls, the number of [stop] calls, the log
    entries and the requests of a sequence of interactions. *)
Definition started (interactions : list Interaction) : list (option nat) :=
  omap (fun i => match i with Start port => Some port | _ => None end)
    interactions.

Definition stopped (interactions : list Interaction) : nat :=
  length (omap (fun i => match i with Stop => Some tt | _ => None end)
            interactions).

Definition requested (interactions : list Interaction) : list IncomingMessage :=
  omap (fun i => match i with Emit (RequestEvent req) => Some req | _ => None end)
    interactions.

End Adapter.

(** A [RequestHandler] as the [RequestHandlerInterface] of an adapter: what
    the promise of its [handle] settles to in the store [st].  ([handle]
    gives a result for every dispatcher of the store.) *)
Definition dispatcher {Request Response : Type}
    (this : RequestHandler.RequestHandler)
    (st : @RequestHandler.State Request Response)
    : Request -> Settled Response :=
  fun request =>
    match RequestHandler.handle this request st with
    | Some (settled, _) => settled
    | None => Rejected RequestHandler.NoMiddlewareAvailable
    end.

(** Modelled from the spec: a Request of the HTTP library that keeps, per
    header name, the values in the order they were given. *)
Record SpecRequest := {
  spec_method : string;
  spec_url : string;
  spec_headers : list (string * string);
  spec_body : option IncomingMessage
}.

Definition spec_header_values (request : SpecRequest) (name : string)
    : list string :=
  (filter (fun entry => entry.1 = name) (spec_headers request)).*2.

(** An [undefined] value is kept as the string a template would write. *)
#[export] Instance SpecRequest_RequestInterface : RequestInterface SpecRequest := {|
  withBody request body :=
    {| spec_method := spec_method request; spec_url := spec_url request;
       spec_headers := spec_headers request; spec_body := Some body |};
  withHeader request name value :=
    {| spec_method := spec_method request; spec_url := spec_url request;
       spec_headers := spec_headers request ++ [(name, template value)];
       spec_body := spec_body request |};
  header_values := spec_header_values
|}.

#[export] Instance SpecRequest_RequestFactoryInterface
    : RequestFactoryInterface SpecRequest := {|
  createRequest method url :=
    {| spec_method := method; spec_url := url;
       spec_headers := []; spec_body := None |}
|}.

End Server.

(** ** src/lib/ServerBuilder.js *)

Module ServerBuilder.
Section Builder.
Context {NodeServer Configuration Logger Handler Server : Type}.

(** [NodeServerFactory]: a call returns a node server or throws. *)
Definition NodeServerFactory : Type := unit -> Settled NodeServer.

(** What a name is bound to in the container.  [BoundContainer] and
    [BoundServerBuilder] stand for the references to the container itself
    and to the builder. *)
Inductive Binding : Type :=
| BoundContainer
| BoundServerBuilder
| BoundRequestHandler (requestHandler : Handler)
| BoundConfiguration (configuration : Configuration)
| BoundLogger (logger : Logger)
| BoundConstructor (name : string)
| BoundServer (server : Server).

(** What the [configure] method of a startup class does with the
    container and the builder it has injected, call by call; a [throw] ends
    it.  ([useStartupClass] is left out: [build] has read that field
    before [configure] runs.) *)
Inductive StartupAction : Type :=
| UseServerFactory (serverFactory : NodeServerFactory)
| UseConfiguration (configuration : Configuration)
| UseLogger (logger : Logger)
| BindInstance (name : string) (instance : Binding)
| ThrowError (error : JsError).

(** [StartupInterface]. *)
Record StartupInstance := { configure : list StartupAction }.

(** A startup class, given by what [container.construct] makes of it. *)
Record StartupClass := { construct : Settled StartupInstance }.

(** The object; a field is [None] while it is [undefined]. *)
Record ServerBuilder := {
  serverFactory : option NodeServerFactory;
  startupClass : option StartupClass;
  configuration : option Configuration;
  logger : option Logger
}.

(** [constructor()]: the four fields are declared, none is assigned. *)
Definition constructor : ServerBuilder :=
  {| serverFactory := None; startupClass := None;
     configuration := None; logger := None |}.

Definition useServerFactory (this : ServerBuilder)
    (serverFactory : NodeServerFactory) : ServerBuilder :=
  {| serverFactory := Some serverFactory; startupClass := startupClass this;
     configuration := configuration this; logger := logger this |}.

Definition useStartupClass (this : ServerBuilder)
    (constructor : StartupClass) : ServerBuilder :=
  {| serverFactory := serverFactory this; startupClass := Some constructor;
     configuration := configuration this; logger := logger this |}.

Definition useConfiguration (this : ServerBuilder)
    (configuration : Configuration) : ServerBuilder :=
  {| serverFactory := serverFactory this; startupClass := startupClass this;
     configuration := Some configuration; logger := logger this |}.

Definition useLogger (this : ServerBuilder) (logger : Logger) : ServerBuilder :=
  {| serverFactory := serverFactory this; startupClass := startupClass this;
     configuration := configuration this; logger := Some logger |}.

(** The collaborators outside the repository: [new RequestHandler()] as
    the container sees it, [new ConfigurationBuilder().build()],
    [new LoggerBuilder().build()] and
    [container.construct(Server, {nodeServer})]. *)
Context (new_RequestHandler : Handler)
  (ConfigurationBuilder_build : Settled Configuration)
  (LoggerBuilder_build : Logger)
  (construct_Server : gmap string Binding -> NodeServer -> Settled Server).

(** [createConfiguration()]:
    [this.configuration ?? await new ConfigurationBuilder().build()]. *)
Definition createConfiguration (this : ServerBuilder) : Settled Configuration :=
  match configuration this with
  | Some configuration => Fulfilled configuration
  | None => ConfigurationBuilder_build
  end.

(** [createLogger()]: [this.logger ?? new LoggerBuilder().build()]. *)
Definition createLogger (this : ServerBuilder) : Logger :=
  match logger this with
  | Some logger => logger
  | None => LoggerBuilder_build
  end.

(** [createRequestHandler()]. *)
Definition createRequestHandler (this : ServerBuilder) : Handler :=
  new_RequestHandler.

(** [ServerBuilder.httpFactoryBindings]. *)
Definition httpFactoryBindings : list (string * string) :=
  [("requestFactory", "RequestFactory");
   ("responseFactory", "ResponseFactory");
   ("streamFactory", "StreamFactory");
   ("urlFactory", "UrlFactory")].

(** [container.invoke(startupInstance.configure...)]: the calls of
    [configure] in order, on the builder and the container. *)
Fixpoint invoke (actions : list StartupAction) (this : ServerBuilder)
    (container : gmap string Binding)
    : Settled (ServerBuilder * gmap string Binding) :=
  match actions with
  | [] => Fulfilled (this, container)
  | UseServerFactory serverFactory :: rest =>
      invoke rest (useServerFactory this serverFactory) container
  | UseConfiguration configuration :: rest =>
      invoke rest (useConfiguration this configuration) container
  | UseLogger logger :: rest =>
      invoke rest (useLogger this logger) container
  | BindInstance name instance :: rest =>
      invoke rest this (<[name := instance]> container)
  | ThrowError error :: _ => Rejected error
  end.

(** Lines 212-228 of [build]: the container is filled and the startup
    class, if there is one, is constructed and configured. *)
Definition configureContainer (this : ServerBuilder)
    : Settled (ServerBuilder * gmap string Binding) :=
  let container : gmap string Binding := ∅ in
  let container := <["container" := BoundContainer]> container in
  let container := <["serverBuilder" := BoundServerBuilder]> container in
  let container :=
    <["requestHandler" := BoundRequestHandler (createRequestHandler this)]>
      container in
  match createConfiguration this with
  | Rejected reason => Rejected reason
  | Fulfilled configuration =>
      let container :=
        <["configuration" := BoundConfiguration configuration]> container in
      let container := <["logger" := BoundLogger (createLogger this)]> container in
      let container :=
        foldl (fun container '(name, constructor) =>
                 <[name := BoundConstructor constructor]> container)
          container httpFactoryBindings in
      match startupClass this with
      | Some class =>
          match construct class with
          | Rejected reason => Rejected reason
          | Fulfilled startupInstance =>
              invoke (configure startupInstance) this container
          end
      | None => Fulfilled (this, container)
      end
  end.

Definition NoServerFactory : JsError := Error "No server factory provided".

(** [async build()]: the promise it returns; with the server comes the
    container, in which it is bound last. *)
Definition build (this : ServerBuilder)
    : Settled (Server * gmap string Binding) :=
  match configureContainer this with
  | Rejected reason => Rejected reason
  | Fulfilled (this', container) =>
      match serverFactory this' with
      | None => Rejected NoServerFactory
      | Some serverFactory =>
          match serverFactory () with
          | Rejected reason => Rejected reason
          | Fulfilled nodeServer =>
              match construct_Server container nodeServer with
              | Rejected reason => Rejected reason
              | Fulfilled server =>
                  Fulfilled (server, <["server" := BoundServer server]> container)
              end
          end
      end
  end.

(** The server factories a [configure] hands to the builder, in order,
    and the names it binds in the container. *)
Definition factories (actions : list StartupAction) : list NodeServerFactory :=
  omap (fun action =>
          match action with
          | UseServerFactory serverFactory => Some serverFactory
          | _ => None
          end) actions.

Definition bound_names (actions : list StartupAction) : list string :=
  omap (fun action =>
          match action with
          | BindInstance name _ => Some name
          | _ => None
          end) actions.

(** The names [build] binds before the startup class is looked at. *)
Definition standard_names : list string :=
  ["container"; "serverBuilder"; "requestHandler"; "configuration"; "logger";
   "requestFactory"; "responseFactory"; "streamFactory"; "urlFactory"].

End Builder.
End ServerBuilder.

(** ** Concrete dispatchers, requests and builders

    Requests are strings, responses are status codes. *)

Module Examples.
Import RequestHandler.

(** [return await next(request)] after the request went through [rewrite]. *)
Definition forwarding (access : Access) (rewrite : string -> string)
    : @Middleware string nat :=
  {| process := fun request =>
       Next access (rewrite request)
         (fun settled =>
            match settled with
            | Fulfilled response => Return response
            | Rejected reason => Throw reason
            end) |}.

(** [return response]. *)
Definition responding (response : nat) : @Middleware string nat :=
  {| process := fun _ => Return response |}.

(** [throw error]. *)
Definition failing (error : JsError) : @Middleware string nat :=
  {| process := fun _ => Throw error |}.

(** Registers [m] with the dispatcher, then forwards. *)
Definition registering (m : @Middleware string nat) : @Middleware string nat :=
  {| process := fun request =>
       AddMiddleware (process m)
         (Next Call request
            (fun settled =>
               match settled with
               | Fulfilled response => Return response
               | Rejected reason => Throw reason
               end)) |}.

(** Calls its next-handler, drops what it settles to, and calls it
    again: outside the contract of the spec. *)
Definition calling_twice : @Middleware string nat :=
  {| process := fun request =>
       Next Call request
         (fun _ =>
            Next Call request
              (fun settled =>
                 match settled with
                 | Fulfilled response => Return response
                 | Rejected reason => Throw reason
                 end)) |}.

Definition unit_a : @Middleware string nat :=
  forwarding Call (fun request => request +:+ "/a").
Definition unit_b : @Middleware string nat :=
  forwarding (Member "handle") (fun request => request +:+ "/b").
Definition unit_c : @Middleware string nat := responding 200.
Definition unit_d : @Middleware string nat := responding 404.

(** The dispatcher object at location 0 of a store whose only cell is the
    array it has registered. *)
Definition this0 : RequestHandler := {| middleware := 0 |}.

Definition store (units : list (@Middleware string nat)) : @State string nat :=
  {| heap := [units]; log := [] |}.

(** An incoming message with the raw headers of the spec's example. *)
Definition example_message : Server.IncomingMessage :=
  {| Server.method := "GET"; Server.url := "/index";
     Server.host := Some "localhost";
     Server.rawHeaders := ["X-A"; "1"; "X-B"; "2"; "X-A"; "3"] |}.

(** A response with the header of the spec's example; its body is a
    string. *)
Definition example_response : @Server.Response string :=
  {| Server.statusCode := 200; Server.reasonPhrase := "OK";
     Server.headers := {["X-A" := ["1"; "3"]]}; Server.body := "hello" |}.

(** An adapter over a handler that answers every request with it. *)
Definition example_server : @Server.Server Server.SpecRequest string :=
  (Server.constructor false (fun _ => Fulfilled example_response)).1.

(** A startup class whose [configure] throws. *)
Definition throwing_startup
    : @ServerBuilder.StartupClass unit unit unit unit unit :=
  {| ServerBuilder.construct :=
       Fulfilled
         {| ServerBuilder.configure :=
              [ServerBuilder.ThrowError (Error "startup failed")] |} |}.

(** A builder that was given that startup class and no server factory. *)
Definition builder_without_factory
    : @ServerBuilder.ServerBuilder unit unit unit unit unit :=
  ServerBuilder.useStartupClass ServerBuilder.constructor throwing_startup.

(** A unit that turns a failure of the rest of the chain into a 500. *)
Definition recovering : @Middleware string nat :=
  {| process := fun request =>
       Next Call request
         (fun settled =>
            match settled with
            | Fulfilled response => Return response
            | Rejected _ => Return 500
            end) |}.

(** An incoming message whose raw headers end with a name without a
    value. *)
Definition truncated_message : Server.IncomingMessage :=
  {| Server.method := "GET"; Server.url := "/";
     Server.host := None;
     Server.rawHeaders := ["X-A"; "1"; "X-B"] |}.

(** A dispatcher whose responses are those of the adapter; its one unit
    answers with the example response. *)
Definition answering
    : @Middleware Server.SpecRequest (@Server.Response string) :=
  {| process := fun _ => Return example_response |}.

(** A startup class that hands the builder a server factory and binds a
    name of its own. *)
Definition supplying_startup
    : @ServerBuilder.StartupClass unit unit unit unit unit :=
  {| ServerBuilder.construct :=
       Fulfilled
         {| ServerBuilder.configure :=
              [ServerBuilder.UseConfiguration tt;
               ServerBuilder.UseServerFactory (fun _ => Fulfilled tt);
               ServerBuilder.BindInstance "router"
                 (ServerBuilder.BoundConstructor "Router")] |} |}.

(** A builder that was given that startup class and nothing else, and a
    builder that was given a server factory and a configuration. *)
Definition builder_with_startup
    : @ServerBuilder.ServerBuilder unit unit unit unit unit :=
  ServerBuilder.useStartupClass ServerBuilder.constructor supplying_startup.

Definition builder_with_factory
    : @ServerBuilder.ServerBuilder unit unit unit unit unit :=
  ServerBuilder.useConfiguration
    (ServerBuilder.useServerFactory ServerBuilder.constructor
       (fun _ => Fulfilled tt))
    tt.

(** A builder that was given nothing. *)
Definition new_builder : @ServerBuilder.ServerBuilder unit unit unit unit unit :=
  ServerBuilder.constructor.

End Examples.


(** * Properties of the dispatcher *)

Module RequestHandlerFacts.
Import RequestHandler.
Section Facts.
Context {Request Response : Type}.

Local Abbreviation Prog := (@Prog Request Response).
Local Abbreviation Middleware := (@Middleware Request Response).
Local Abbreviation Event := (@Event Request Response).
Local Abbreviation State := (@State Request Response).
Local Abbreviation HandlerFunction := (@HandlerFunction Request Response).

Implicit Types (st : State) (m : Middleware) (p : Prog) (this : RequestHandler)
  (q l : loc) (request : Request) (events : list Event)
  (units : list Middleware).

(** ** The store *)

Lemma array_at_set_eq l a st :
  l < length (heap st) -> array_at (array_set l a st) l = a.
Proof.
  intros Hl. unfold array_at, array_set; simpl.
  by rewrite list_lookup_insert_eq.
Qed.

Lemma array_at_set_ne l l' a st :
  l <> l' -> array_at (array_set l a st) l' = array_at st l'.
Proof.
  intros Hne. unfold array_at, array_set; simpl.
  by rewrite list_lookup_insert_ne.
Qed.

Lemma heap_length_set l a st :
  length (heap (array_set l a st)) = length (heap st).
Proof. apply length_insert. Qed.

Lemma array_at_alloc_old a st l :
  l < length (heap st) -> array_at (alloc a st).2 l = array_at st l.
Proof.
  intros Hl. unfold array_at, alloc; simpl. by rewrite lookup_app_l.
Qed.

Lemma array_at_alloc_new a st :
  array_at (alloc a st).2 (alloc a st).1 = a.
Proof.
  unfold array_at, alloc; simpl.
  rewrite lookup_app_r by lia. by rewrite Nat.sub_diag.
Qed.

Lemma processed_app events events' :
  processed (events ++ events') = processed events ++ processed events'.
Proof.
  induction events as [|[m r|m] events IH]; simpl; by rewrite ?IH.
Qed.

Lemma pushed_app events events' :
  pushed (events ++ events') = pushed events ++ pushed events'.
Proof.
  induction events as [|[m r|m] events IH]; simpl; by rewrite ?IH.
Qed.

(** ** What a run of the dispatcher does to the store *)

Lemma Step_refl this q st : Step this q st st [].
Proof. split; simpl; by rewrite ?app_nil_r. Qed.

Lemma Step_trans this q st1 st2 st3 events events' :
  Step this q st1 st2 events -> Step this q st2 st3 events' ->
  Step this q st1 st3 (events ++ events').
Proof.
  intros [H1 H2 H3 H4 H5] [G1 G2 G3 G4 G5]. split.
  - by rewrite G1, H1, app_assoc.
  - by rewrite G2.
  - by rewrite processed_app, fmap_app, <-app_assoc, <-G3.
  - by rewrite pushed_app, app_assoc, <-H4.
  - intros l Hq Hm. by rewrite G5, H5.
Qed.

Lemma Step_addMiddleware this q st m :
  q <> middleware this -> valid this st ->
  Step this q st (record (Pushed m) (addMiddleware this m st)) [Pushed m].
Proof.
  intros Hne Hv. unfold addMiddleware, push. split; simpl.
  - done.
  - apply length_insert.
  - symmetry. by apply (array_at_set_ne _ _ _ st).
  - by apply (array_at_set_eq _ _ st).
  - intros l _ Hl. by apply (array_at_set_ne _ _ _ st).
Qed.

Lemma Step_shift this q st m rest :
  q <> middleware this -> q < length (heap st) ->
  array_at st q = m :: rest -> forall request,
  Step this q st (record (Processed m request) (array_set q rest st))
    [Processed m request].
Proof.
  intros Hne Hq Hat request. split; simpl.
  - done.
  - apply length_insert.
  - rewrite Hat. f_equal. symmetry. by apply (array_at_set_eq _ _ st).
  - rewrite app_nil_r. by apply (array_at_set_ne _ _ _ st).
  - intros l Hl _. by apply (array_at_set_ne _ _ _ st).
Qed.

(** ** Runs of [exec] and [handleRequest] *)

Lemma resolve_createRequestHandler (h : HandlerFunction) access :
  resolve (createRequestHandler h) access = h.
Proof. by destruct access. Qed.

Lemma shift_cons q st m rest :
  array_at st q = m :: rest -> shift q st = (Some m, array_set q rest st).
Proof. intros H. unfold shift. by rewrite H. Qed.

(** One dispatch step on a queue that is not empty: the head unit is taken
    off and its [process] is called with the request of the step; what that
    call settles to is the result. *)
Lemma handleRequest_cons fuel this request q st m rest :
  array_at st q = m :: rest ->
  handleRequest (S fuel) this request q st =
  exec this
    (createRequestHandler (fun request => handleRequest fuel this request q))
    (process m request)
    (record (Processed m request) (array_set q rest st)).
Proof.
  intros Hat. cbn [handleRequest]. rewrite Hat. cbn [length Nat.eqb].
  by rewrite (shift_cons _ _ _ _ Hat).
Qed.

Lemma exec_Step this q (h : HandlerFunction) :
  q <> middleware this ->
  (forall request st o st', valid this st -> q < length (heap st) ->
     h request st = Some (o, st') -> exists events, Step this q st st' events) ->
  forall p st o st', valid this st -> q < length (heap st) ->
    exec this (createRequestHandler h) p st = Some (o, st') ->
    exists events, Step this q st st' events.
Proof.
  intros Hne Hh p.
  induction p as [response|error|access request k IH|unit_process _ k IH];
    intros st o st' Hv Hq Hrun; simpl in Hrun.
  - injection Hrun as <- <-. eexists. apply Step_refl.
  - injection Hrun as <- <-. eexists. apply Step_refl.
  - rewrite resolve_createRequestHandler in Hrun.
    destruct (h request st) as [[o1 st1]|] eqn:Hcall; [|done].
    destruct (Hh _ _ _ _ Hv Hq Hcall) as [events1 Hstep1].
    destruct (IH o1 st1 o st') as [events2 Hstep2]; [| |done|].
    + unfold valid. by rewrite (step_heap _ _ _ _ _ Hstep1).
    + by rewrite (step_heap _ _ _ _ _ Hstep1).
    + eexists. by eapply Step_trans.
  - pose proof (Step_addMiddleware this q st {| process := unit_process |} Hne Hv)
      as Hstep1.
    destruct (IH _ o st' ltac:(unfold valid; by rewrite (step_heap _ _ _ _ _ Hstep1))
                ltac:(by rewrite (step_heap _ _ _ _ _ Hstep1)) Hrun)
      as [events2 Hstep2].
    eexists. by eapply Step_trans.
Qed.

Lemma handleRequest_Step this q fuel :
  q <> middleware this ->
  forall request st o st', valid this st -> q < length (heap st) ->
    handleRequest fuel this request q st = Some (o, st') ->
    exists events, Step this q st st' events.
Proof.
  intros Hne. induction fuel as [|fuel IH]; intros request st o st' Hv Hq Hrun;
    simpl in Hrun; [done|].
  destruct (array_at st q) as [|m rest] eqn:Hat; simpl in Hrun.
  - injection Hrun as <- <-. eexists. apply Step_refl.
  - rewrite (shift_cons _ _ _ _ Hat) in Hrun.
    pose proof (Step_shift this q st m rest Hne Hq Hat request) as Hstep1.
    eapply exec_Step in Hrun as [events2 Hstep2]; [|done|exact IH| |].
    + eexists. by eapply Step_trans.
    + unfold valid. by rewrite (step_heap _ _ _ _ _ Hstep1).
    + by rewrite (step_heap _ _ _ _ _ Hstep1).
Qed.

Lemma Step_queue_length this q st st' events :
  Step this q st st' events -> length (array_at st' q) <= length (array_at st q).
Proof.
  intros H. rewrite (step_queue _ _ _ _ _ H), length_app. lia.
Qed.

Lemma exec_total this q (h : HandlerFunction) n :
  q <> middleware this ->
  (forall request st o st', valid this st -> q < length (heap st) ->
     h request st = Some (o, st') -> exists events, Step this q st st' events) ->
  (forall request st, valid this st -> q < length (heap st) ->
     length (array_at st q) < n -> is_Some (h request st)) ->
  forall p st, valid this st -> q < length (heap st) ->
    length (array_at st q) < n ->
    is_Some (exec this (createRequestHandler h) p st).
Proof.
  intros Hne Hstep Htotal p.
  induction p as [response|error|access request k IH|unit_process _ k IH];
    intros st Hv Hq Hlen; simpl; [done|done| |].
  - rewrite resolve_createRequestHandler.
    destruct (Htotal request st Hv Hq Hlen) as [[o1 st1] Hcall]. rewrite Hcall.
    destruct (Hstep _ _ _ _ Hv Hq Hcall) as [events1 Hstep1].
    apply IH.
    + unfold valid. by rewrite (step_heap _ _ _ _ _ Hstep1).
    + by rewrite (step_heap _ _ _ _ _ Hstep1).
    + pose proof (Step_queue_length _ _ _ _ _ Hstep1). lia.
  - pose proof (Step_addMiddleware this q st {| process := unit_process |} Hne Hv)
      as Hstep1.
    apply IH.
    + unfold valid. by rewrite (step_heap _ _ _ _ _ Hstep1).
    + by rewrite (step_heap _ _ _ _ _ Hstep1).
    + pose proof (Step_queue_length _ _ _ _ _ Hstep1). lia.
Qed.

(** Fuel above the length of the queue is enough. *)
Lemma handleRequest_total this q fuel :
  q <> middleware this ->
  forall request st, valid this st -> q < length (heap st) ->
    length (array_at st q) < fuel ->
    is_Some (handleRequest fuel this request q st).
Proof.
  intros Hne. induction fuel as [|fuel IH]; intros request st Hv Hq Hlen;
    [lia|]. simpl.
  destruct (array_at st q) as [|m rest] eqn:Hat; simpl; [done|].
  rewrite (shift_cons _ _ _ _ Hat).
  pose proof (Step_shift this q st m rest Hne Hq Hat request) as Hstep1.
  eapply exec_total; [done|by apply handleRequest_Step|exact IH| | |].
  - unfold valid. by rewrite (step_heap _ _ _ _ _ Hstep1).
  - by rewrite (step_heap _ _ _ _ _ Hstep1).
  - pose proof (step_queue _ _ _ _ _ Hstep1) as Hq'. rewrite Hat in Hq'.
    simpl in Hq'. injection Hq' as Hq'. rewrite <-Hq'. simpl in Hlen. lia.
Qed.

(** ** Well-behaved units: the run is the spec's chain *)

Lemma NoNext_next_request p : NoNext p -> next_request p = None.
Proof. induction 1; simpl; auto. Qed.

Lemma exec_NoNext this (h : HandlerFunction) rest p :
  NoNext p -> forall st, exists st' events,
    exec this (createRequestHandler h) p st = Some (spec_answer rest p, st') /\
    log st' = log st ++ events /\ processed events = [].
Proof.
  induction 1 as [response|error|unit_process k Hk IH]; intros st; simpl.
  - exists st, []. by rewrite app_nil_r.
  - exists st, []. by rewrite app_nil_r.
  - destruct (IH (record (Pushed {| process := unit_process |})
                   (addMiddleware this {| process := unit_process |} st)))
      as (st' & events & Hrun & Hlog & Hproc).
    exists st', (Pushed {| process := unit_process |} :: events).
    split; [done|]. split; [|done].
    rewrite Hlog. simpl. by rewrite <-app_assoc.
Qed.

Lemma exec_chain this q fuel units :
  q <> middleware this ->
  (forall request st o st' events, Disciplined units request ->
     valid this st -> q < length (heap st) ->
     array_at st q = units ->
     handleRequest fuel this request q st = Some (o, st') ->
     log st' = log st ++ events ->
     processed events = spec_chain units request /\
     o = spec_outcome units request) ->
  forall p, AtMostOnce p ->
  (forall request', next_request p = Some request' ->
     Disciplined units request') ->
  forall st o st' events, valid this st -> q < length (heap st) ->
    array_at st q = units ->
    exec this (createRequestHandler
                 (fun request => handleRequest fuel this request q)) p st
      = Some (o, st') ->
    log st' = log st ++ events ->
    processed events =
      match next_request p with
      | Some request' => spec_chain units request'
      | None => []
      end /\
    o = spec_answer (spec_outcome units) p.
Proof.
  intros Hne IHfuel p Hp.
  induction Hp as [response|error|access request k Hk|unit_process k Hk IH];
    intros Hd st o st' events Hv Hq Hat Hrun Hlog; simpl in Hrun |- *.
  - injection Hrun as <- <-.
    rewrite <-(app_nil_r (log st)) in Hlog at 1.
    apply app_inv_head in Hlog as <-. done.
  - injection Hrun as <- <-.
    rewrite <-(app_nil_r (log st)) in Hlog at 1.
    apply app_inv_head in Hlog as <-. done.
  - rewrite resolve_createRequestHandler in Hrun.
    destruct (handleRequest fuel this request q st) as [[o1 st1]|] eqn:Hcall;
      [|done].
    destruct (handleRequest_Step _ _ _ Hne _ _ _ _ Hv Hq Hcall)
      as [events1 Hstep1].
    destruct (IHfuel _ _ _ _ events1 (Hd _ eq_refl) Hv Hq Hat Hcall
                (step_log _ _ _ _ _ Hstep1))
      as [Hproc1 ->].
    destruct (exec_NoNext this
                (fun request => handleRequest fuel this request q)
                (spec_outcome units) _ (Hk (spec_outcome units request)) st1)
      as (st2 & events2 & Hrun2 & Hlog2 & Hproc2).
    rewrite Hrun2 in Hrun. injection Hrun as <- <-.
    rewrite (step_log _ _ _ _ _ Hstep1), <-app_assoc in Hlog2.
    rewrite Hlog2 in Hlog. apply app_inv_head in Hlog as <-.
    by rewrite processed_app, Hproc2, app_nil_r.
  - set (m := {| process := unit_process |}) in *.
    pose proof (Step_addMiddleware this q st m Hne Hv) as Hstep1.
    assert (valid this (record (Pushed m) (addMiddleware this m st))) as Hv1
      by (unfold valid; by rewrite (step_heap _ _ _ _ _ Hstep1)).
    assert (q < length (heap (record (Pushed m) (addMiddleware this m st))))
      as Hq1 by (by rewrite (step_heap _ _ _ _ _ Hstep1)).
    destruct (exec_Step this q _ Hne (handleRequest_Step this q fuel Hne)
                _ _ _ _ Hv1 Hq1 Hrun) as [events2 Hstep2].
    pose proof (step_log _ _ _ _ _ Hstep2) as Hlog2.
    assert (events = Pushed m :: events2) as ->.
    { rewrite Hlog2 in Hlog. simpl in Hlog. rewrite <-app_assoc in Hlog.
      by apply app_inv_head in Hlog. }
    simpl. eapply IH; [exact Hd|exact Hv1|exact Hq1| |exact Hrun|exact Hlog2].
    rewrite <-Hat. symmetry.
    pose proof (step_queue _ _ _ _ _ Hstep1) as Hq'. by simpl in Hq'.
Qed.

Lemma handleRequest_chain this q fuel :
  q <> middleware this ->
  forall units request st o st' events,
    Disciplined units request -> valid this st -> q < length (heap st) ->
    array_at st q = units ->
    handleRequest fuel this request q st = Some (o, st') ->
    log st' = log st ++ events ->
    processed events = spec_chain units request /\
    o = spec_outcome units request.
Proof.
  intros Hne. induction fuel as [|fuel IH];
    intros units request st o st' events Hwb Hv Hq Hat Hrun Hlog;
    simpl in Hrun; [done|].
  rewrite Hat in Hrun. destruct units as [|m rest]; simpl in Hrun.
  - injection Hrun as <- <-.
    rewrite <-(app_nil_r (log st)) in Hlog at 1.
    apply app_inv_head in Hlog as <-. done.
  - rewrite (shift_cons _ _ _ _ Hat) in Hrun.
    pose proof (Step_shift this q st m rest Hne Hq Hat request) as Hstep1.
    unfold Disciplined in Hwb. simpl in Hwb.
    apply Forall_cons in Hwb as [Hm Hrest]. simpl in Hm.
    assert (valid this (record (Processed m request) (array_set q rest st)))
      as Hv1 by (unfold valid; by rewrite (step_heap _ _ _ _ _ Hstep1)).
    assert (q < length (heap (record (Processed m request) (array_set q rest st))))
      as Hq1 by (by rewrite (step_heap _ _ _ _ _ Hstep1)).
    destruct (exec_Step this q _ Hne (handleRequest_Step this q fuel Hne)
                _ _ _ _ Hv1 Hq1 Hrun) as [events2 Hstep2].
    pose proof (step_log _ _ _ _ _ Hstep2) as Hlog2.
    simpl in Hlog2. rewrite <-app_assoc in Hlog2.
    rewrite Hlog2 in Hlog. apply app_inv_head in Hlog as <-.
    destruct (exec_chain this q fuel rest Hne
                (IH rest) _ Hm) with (o := o) (st' := st') (events := events2)
                                     (st := record (Processed m request)
                                                   (array_set q rest st))
      as [Hproc ->]; [|exact Hv1|exact Hq1| |exact Hrun| |].
    + intros request' Hnext. rewrite Hnext in Hrest. exact Hrest.
    + pose proof (step_queue _ _ _ _ _ Hstep1) as Hq'. rewrite Hat in Hq'.
      simpl in Hq'. by injection Hq' as <-.
    + simpl. by rewrite <-app_assoc.
    + simpl. by rewrite Hproc.
Qed.

(** ** [handle]: the copy, and enough fuel *)

Lemma handle_unfold this request st :
  handle this request st =
  handleRequest (S (length (array_at st (middleware this)))) this request
    (length (heap st)) (slice (middleware this) st).2.
Proof.
  unfold handle, slice.
  pose proof (array_at_alloc_new (array_at st (middleware this)) st) as Hnew.
  destruct (alloc (array_at st (middleware this)) st) as [queue st0] eqn:Halloc.
  simpl in Hnew. rewrite Hnew.
  unfold alloc in Halloc. by injection Halloc as <- <-.
Qed.

(** What one call of [handle] does: it settles, the units it processed
    are a front part of the list registered when it was called, the
    registered list only gained what was pushed meanwhile, and every older
    cell other than the registered list is untouched. *)
Lemma handle_run this request st :
  valid this st ->
  exists o st' events,
    handle this request st = Some (o, st') /\
    log st' = log st ++ events /\
    array_at st (middleware this) =
      (processed events).*1 ++ array_at st' (length (heap st)) /\
    array_at st' (middleware this) =
      array_at st (middleware this) ++ pushed events /\
    length (heap st') = S (length (heap st)) /\
    (forall l, l < length (heap st) -> l <> middleware this ->
       array_at st' l = array_at st l) /\
    (Disciplined (array_at st (middleware this)) request ->
       processed events = spec_chain (array_at st (middleware this)) request /\
       o = spec_outcome (array_at st (middleware this)) request).
Proof.
  intros Hv. rewrite handle_unfold. unfold slice.
  set (units := array_at st (middleware this)).
  set (q := length (heap st)).
  set (st0 := (alloc units st).2).
  assert (q <> middleware this) as Hne by (unfold valid in Hv; lia).
  assert (valid this st0) as Hv0
    by (unfold valid, st0; simpl; rewrite length_app; unfold valid in Hv; lia).
  assert (q < length (heap st0)) as Hq0
    by (unfold st0; simpl; rewrite length_app; simpl; lia).
  assert (array_at st0 q = units) as Hat0 by apply array_at_alloc_new.
  assert (array_at st0 (middleware this) = units) as Hreg0
    by (by apply array_at_alloc_old).
  destruct (handleRequest_total this q (S (length units)) Hne request st0
              Hv0 Hq0) as [[o st'] Hrun]; [rewrite Hat0; lia|].
  destruct (handleRequest_Step this q _ Hne _ _ _ _ Hv0 Hq0 Hrun)
    as [events Hstep].
  exists o, st', events. split; [done|].
  split; [exact (step_log _ _ _ _ _ Hstep)|].
  split; [by rewrite <-(step_queue _ _ _ _ _ Hstep)|].
  split; [by rewrite (step_registered _ _ _ _ _ Hstep), Hreg0|].
  split.
  { rewrite (step_heap _ _ _ _ _ Hstep). unfold st0; simpl.
    rewrite length_app; simpl; lia. }
  split.
  { intros l Hl Hlm. rewrite (step_frame _ _ _ _ _ Hstep) by (done || lia).
    by apply array_at_alloc_old. }
  intros Hd.
  exact (handleRequest_chain this q _ Hne units request st0 o st' events
           Hd Hv0 Hq0 Hat0 Hrun (step_log _ _ _ _ _ Hstep)).
Qed.

Lemma handle_valid this request st o st' :
  valid this st -> handle this request st = Some (o, st') -> valid this st'.
Proof.
  intros Hv Hrun.
  destruct (handle_run this request st Hv)
    as (o' & st'' & events & Hrun' & _ & _ & _ & Hlen & _).
  rewrite Hrun in Hrun'. injection Hrun' as -> ->.
  unfold valid in *. lia.
Qed.

Lemma handle_total this request st :
  valid this st -> is_Some (handle this request st).
Proof.
  intros Hv.
  destruct (handle_run this request st Hv) as (o & st' & events & Hrun & _).
  by eexists.
Qed.

(** With a unit registered, the first thing a call does is to process the
    first unit with the request of the call. *)
Lemma handle_first this request st m rest o st' events :
  valid this st -> array_at st (middleware this) = m :: rest ->
  handle this request st = Some (o, st') ->
  log st' = log st ++ events ->
  exists events', events = Processed m request :: events'.
Proof.
  intros Hv Hunits Hrun Hlog. rewrite handle_unfold in Hrun.
  unfold slice in Hrun.
  set (q := length (heap st)) in *.
  set (st0 := (alloc (array_at st (middleware this)) st).2) in *.
  assert (q <> middleware this) as Hne by (unfold valid in Hv; lia).
  assert (valid this st0) as Hv0
    by (unfold valid, st0; simpl; rewrite length_app; unfold valid in Hv; lia).
  assert (q < length (heap st0)) as Hq0
    by (unfold st0; simpl; rewrite length_app; simpl; lia).
  assert (array_at st0 q = m :: rest) as Hat0
    by (rewrite <-Hunits; apply array_at_alloc_new).
  cbn [handleRequest] in Hrun. rewrite Hat0 in Hrun.
  cbn [length Nat.eqb] in Hrun.
  rewrite (shift_cons _ _ _ _ Hat0) in Hrun.
  pose proof (Step_shift this q st0 m rest Hne Hq0 Hat0 request) as Hstep1.
  eapply exec_Step in Hrun as [events2 Hstep2];
    [|done|by apply handleRequest_Step| |].
  - exists events2. pose proof (step_log _ _ _ _ _ Hstep2) as Hlog2.
    simpl in Hlog2. rewrite Hlog2, <-app_assoc in Hlog.
    by apply app_inv_head in Hlog.
  - unfold valid. by rewrite (step_heap _ _ _ _ _ Hstep1).
  - by rewrite (step_heap _ _ _ _ _ Hstep1).
Qed.

(** ** The spec's chain and outcome *)

Lemma WellBehaved_Disciplined units request :
  Forall WellBehaved units -> Disciplined units request.
Proof.
  unfold Disciplined. revert request.
  induction units as [|m units IH]; intros request Hwb; simpl; [done|].
  apply Forall_cons in Hwb as [Hm Hwb]. constructor; [apply Hm|].
  destruct (next_request (process m request)); [by apply IH|done].
Qed.

Lemma Propagates_WellBehaved m : Propagates m -> WellBehaved m.
Proof.
  intros Hm request. destruct (Hm request) as (access & r' & k & -> & Hk & _).
  by constructor.
Qed.

Lemma spec_chain_prefix units request :
  (spec_chain units request).*1 `prefix_of` units.
Proof.
  revert request. induction units as [|m units IH]; intros request; simpl.
  - done.
  - apply prefix_cons.
    destruct (next_request (process m request)); [apply IH|apply prefix_nil].
Qed.

Lemma NoNext_AtMostOnce p : NoNext p -> AtMostOnce p.
Proof. induction 1; by constructor. Qed.

Lemma Propagates_CallsNext m : Propagates m -> CallsNext m.
Proof.
  intros Hm request. destruct (Hm request) as (access & r' & k & -> & _).
  simpl. by eexists.
Qed.

(** When all units call next, the chain is the whole list. *)
Lemma spec_chain_all units request :
  Forall CallsNext units -> (spec_chain units request).*1 = units.
Proof.
  revert request. induction units as [|m units IH]; intros request Hall;
    simpl; [done|].
  apply Forall_cons in Hall as [Hm Hall].
  destruct (Hm request) as [request' ->]. by rewrite IH.
Qed.

(** The chain ends with the first unit that does not call next. *)
Lemma spec_chain_stops before m after request :
  Forall CallsNext before -> Terminal m ->
  (spec_chain (before ++ m :: after) request).*1 = before ++ [m].
Proof.
  revert request. induction before as [|u before IH]; intros request Hall Hm;
    simpl.
  - by rewrite (NoNext_next_request _ (Hm request)).
  - apply Forall_cons in Hall as [Hu Hall].
    destruct (Hu request) as [request' ->]. by rewrite IH.
Qed.

Lemma Disciplined_stops before m after request :
  Forall WellBehaved before -> Terminal m ->
  Disciplined (before ++ m :: after) request.
Proof.
  unfold Disciplined. revert request.
  induction before as [|u before IH]; intros request Hwb Hm; simpl.
  - rewrite (NoNext_next_request _ (Hm request)).
    constructor; [|done]. apply NoNext_AtMostOnce, Hm.
  - apply Forall_cons in Hwb as [Hu Hwb]. constructor; [apply Hu|].
    destruct (next_request (process u request)); [by apply IH|done].
Qed.

(** In the chain, a unit receives the request its predecessor passed to
    next. *)
Lemma spec_chain_consecutive units request i m r m' received :
  spec_chain units request !! i = Some (m, r) ->
  spec_chain units request !! S i = Some (m', received) ->
  next_request (process m r) = Some received.
Proof.
  revert request i.
  induction units as [|u units IH]; intros request i Hi HS; simpl in *;
    [done|].
  destruct i as [|i]; simpl in *.
  - injection Hi as <- <-.
    destruct (next_request (process u request)) as [request'|]; [|done].
    destruct units as [|u' units]; simpl in HS; [done|].
    by injection HS as <- <-.
  - destruct (next_request (process u request)) as [request'|]; [|done].
    by eapply IH.
Qed.

Lemma spec_chain_head m units request :
  spec_chain (m :: units) request !! 0 = Some (m, request).
Proof. done. Qed.

(** From one position to a later one, when the units in between forward
    what they receive. *)
Lemma consecutive_forwarded (calls : list (Middleware * Request)) :
  (forall i m r m' received,
     calls !! i = Some (m, r) -> calls !! S i = Some (m', received) ->
     next_request (process m r) = Some received) ->
  forall j i m r request' m' received,
    i < j ->
    calls !! i = Some (m, r) ->
    next_request (process m r) = Some request' ->
    (forall k mk rk, i < k < j -> calls !! k = Some (mk, rk) ->
       next_request (process mk rk) = Some rk) ->
    calls !! j = Some (m', received) ->
    received = request'.
Proof.
  intros Hcons j. induction j as [|j IH];
    intros i m r request' m' received Hij Hi Hnext Hfwd Hj; [lia|].
  destruct (decide (i = j)) as [->|Hne].
  - pose proof (Hcons _ _ _ _ _ Hi Hj) as Hnext'. congruence.
  - destruct (calls !! j) as [[mk rk]|] eqn:Hk.
    + assert (rk = request') as ->.
      { eapply (IH i m r request' mk rk); [lia|done|done| |done].
        intros k mk' rk' Hk'. apply Hfwd. lia. }
      pose proof (Hfwd j mk request' ltac:(lia) Hk) as Hfw.
      pose proof (Hcons _ _ _ _ _ Hk Hj) as Hnext'. congruence.
    + apply lookup_ge_None in Hk. apply lookup_lt_Some in Hj. lia.
Qed.

(** The spec's outcome of a chain of propagating units in front of a unit
    that throws, and of a chain of propagating units alone. *)
Lemma spec_outcome_throw before m after error request :
  Forall Propagates before -> (forall r, process m r = Throw error) ->
  spec_outcome (before ++ m :: after) request = Rejected error.
Proof.
  revert request. induction before as [|u before IH]; intros request Hall Hm;
    simpl.
  - by rewrite Hm.
  - apply Forall_cons in Hall as [Hu Hall].
    destruct (Hu request) as (access & r' & k & -> & _ & Hk). simpl.
    by rewrite IH, Hk.
Qed.

Lemma spec_outcome_exhausted units request :
  Forall Propagates units ->
  spec_outcome units request = Rejected NoMiddlewareAvailable.
Proof.
  revert request. induction units as [|u units IH]; intros request Hall;
    simpl; [done|].
  apply Forall_cons in Hall as [Hu Hall].
  destruct (Hu request) as (access & r' & k & -> & _ & Hk). simpl.
  by rewrite IH, Hk.
Qed.

Lemma run_registered this operations :
  forall st, valid this st ->
  exists st' events,
    run this operations st = Some st' /\
    log st' = log st ++ events /\
    array_at st' (middleware this) =
      array_at st (middleware this) ++ pushed events.
Proof.
  induction operations as [|[m|request] operations IH]; intros st Hv; simpl.
  - exists st, []. by rewrite !app_nil_r.
  - set (st1 := record (Pushed m) (addMiddleware this m st)).
    assert (valid this st1) as Hv1
      by (unfold valid, st1; simpl; by rewrite length_insert).
    destruct (IH st1 Hv1) as (st' & events & Hrun & Hlog & Hreg).
    exists st', (Pushed m :: events). split; [done|]. split.
    + rewrite Hlog. simpl. by rewrite <-app_assoc.
    + rewrite Hreg. simpl. unfold st1, addMiddleware, push.
      change (array_at (record ?e ?s) ?l) with (array_at s l).
      rewrite array_at_set_eq by exact Hv. by rewrite <-app_assoc.
  - destruct (handle_run this request st Hv)
      as (o & st1 & events1 & Hrun1 & Hlog1 & _ & Hreg1 & Hlen1 & _).
    rewrite Hrun1.
    assert (valid this st1) as Hv1 by (unfold valid in *; lia).
    destruct (IH st1 Hv1) as (st' & events & Hrun & Hlog & Hreg).
    exists st', (events1 ++ events). split; [done|]. split.
    + by rewrite Hlog, Hlog1, app_assoc.
    + by rewrite Hreg, Hreg1, pushed_app, app_assoc.
Qed.

(** ** What the spec says of the dispatcher *)

(** C1.  A call of [handle] settles, and the units whose [process] it
    invoked are a front part of the registered list, in registration
    order, whatever the units do; the first registered unit is invoked
    first, with the request of the call.  When every unit reached calls its
    next-handler at most once (the contract of the spec), the invoked units
    with the requests they received are exactly the spec's chain; so if
    the units [before] all call next and [m] returns or throws without
    calling it, exactly [before ++ [m]] are invoked and none of [after]. *)
Theorem C1_handle_invokes_units_in_registration_order this request st :
  valid this st ->
  exists o st' events,
    handle this request st = Some (o, st') /\
    log st' = log st ++ events /\
    (processed events).*1 `prefix_of` array_at st (middleware this) /\
    (forall m, head (array_at st (middleware this)) = Some m ->
       head (processed events) = Some (m, request)) /\
    (Disciplined (array_at st (middleware this)) request ->
       processed events = spec_chain (array_at st (middleware this)) request) /\
    (forall before m after,
       array_at st (middleware this) = before ++ m :: after ->
       Forall WellBehaved before -> Forall CallsNext before -> Terminal m ->
       (processed events).*1 = before ++ [m]).
Proof.
  intros Hv.
  destruct (handle_run this request st Hv)
    as (o & st' & events & Hrun & Hlog & Hqueue & _ & _ & _ & Hchain).
  exists o, st', events. repeat split; try done.
  - rewrite Hqueue. by apply prefix_app_r.
  - intros m Hhead.
    destruct (array_at st (middleware this)) as [|m' rest] eqn:Hunits;
      [done|]. injection Hhead as ->.
    destruct (handle_first this request st m rest o st' events Hv Hunits
                Hrun Hlog) as [events' ->]. done.
  - intros Hd. by apply Hchain.
  - intros before m after Hunits Hwb Hcalls Hm.
    rewrite Hunits in Hchain.
    destruct (Hchain (Disciplined_stops before m after request Hwb Hm))
      as [-> _].
    by apply spec_chain_stops.
Qed.

(** C2.  A dispatch on an empty queue fails with the
    no-middleware error and leaves the store alone: [handle] with nothing
    registered; the dispatch step itself, whoever calls it; a next-handler
    invoked on an empty queue, whose caller goes on with that rejection;
    and [handle] on a chain in which every unit, the last one included,
    hands on to its next-handler: all units are processed and the call
    settles to the error. *)
Theorem C2_empty_queue_fails_with_no_middleware this request :
  (forall st, array_at st (middleware this) = [] ->
     handle this request st =
     Some (Rejected NoMiddlewareAvailable, (slice (middleware this) st).2)) /\
  (forall fuel q st, array_at st q = [] ->
     handleRequest (S fuel) this request q st =
     Some (Rejected NoMiddlewareAvailable, st)) /\
  (forall fuel q st access k, array_at st q = [] ->
     exec this
       (createRequestHandler (fun request => handleRequest (S fuel) this request q))
       (Next access request k) st =
     exec this
       (createRequestHandler (fun request => handleRequest (S fuel) this request q))
       (k (Rejected NoMiddlewareAvailable)) st) /\
  (forall st, valid this st ->
     Forall Propagates (array_at st (middleware this)) ->
     exists st' events,
       handle this request st = Some (Rejected NoMiddlewareAvailable, st') /\
       log st' = log st ++ events /\
       (processed events).*1 = array_at st (middleware this)).
Proof.
  repeat split.
  - intros st Hempty. rewrite handle_unfold, Hempty.
    cbn [handleRequest length]. unfold slice. rewrite Hempty.
    pose proof (array_at_alloc_new [] st) as Hnew.
    change ((alloc [] st).1) with (length (heap st)) in Hnew.
    by rewrite Hnew.
  - intros fuel q st Hempty. simpl. by rewrite Hempty.
  - intros fuel q st access k Hempty.
    cbn [exec]. rewrite resolve_createRequestHandler.
    cbn [handleRequest]. by rewrite Hempty.
  - intros st Hv Hall.
    destruct (handle_run this request st Hv)
      as (o & st' & events & Hrun & Hlog & _ & _ & _ & _ & Hchain).
    destruct Hchain as [Hproc ->].
    { apply WellBehaved_Disciplined.
      eapply Forall_impl; [exact Hall|]. apply Propagates_WellBehaved. }
    rewrite spec_outcome_exhausted in Hrun by done.
    exists st', events. split; [done|]. split; [done|].
    rewrite Hproc. apply spec_chain_all.
    eapply Forall_impl; [exact Hall|]. apply Propagates_CallsNext.
Qed.

(** C4.  [handle] dispatches on a copy: the queue it uses is a cell of
    its own holding the list registered at the call, and an
    [addMiddleware] does not reach that cell.  So the units the call
    processes are a front part of the list registered when it began,
    whatever was pushed while it ran, and for units within the contract both
    the units processed and the outcome are those of the spec's chain over
    that list.  The pushed units are at the end of the registered list
    afterwards, and a call of [handle] that begins then dispatches on the
    longer list. *)
Theorem C4_handle_dispatches_on_a_snapshot this request request2 st :
  valid this st ->
  ((slice (middleware this) st).1 <> middleware this /\
   array_at (slice (middleware this) st).2 (slice (middleware this) st).1 =
     array_at st (middleware this) /\
   forall m,
     array_at (addMiddleware this m (slice (middleware this) st).2)
       (slice (middleware this) st).1 = array_at st (middleware this)) /\
  exists o st' events,
    handle this request st = Some (o, st') /\
    log st' = log st ++ events /\
    (processed events).*1 `prefix_of` array_at st (middleware this) /\
    (Disciplined (array_at st (middleware this)) request ->
       processed events = spec_chain (array_at st (middleware this)) request /\
       o = spec_outcome (array_at st (middleware this)) request) /\
    array_at st' (middleware this) =
      array_at st (middleware this) ++ pushed events /\
    exists o2 st2 events2,
      handle this request2 st' = Some (o2, st2) /\
      log st2 = log st' ++ events2 /\
      (processed events2).*1
        `prefix_of` (array_at st (middleware this) ++ pushed events) /\
      (Disciplined (array_at st (middleware this) ++ pushed events) request2 ->
         processed events2 =
           spec_chain (array_at st (middleware this) ++ pushed events) request2 /\
         o2 = spec_outcome (array_at st (middleware this) ++ pushed events)
                request2).
Proof.
  intros Hv. split.
  - unfold slice.
    pose proof (array_at_alloc_new (array_at st (middleware this)) st) as Hnew.
    assert ((alloc (array_at st (middleware this)) st).1 <> middleware this)
      as Hne by (simpl; unfold valid in Hv; lia).
    split; [done|]. split; [done|].
    intros m. unfold addMiddleware, push.
    rewrite array_at_set_ne by done. exact Hnew.
  - destruct (handle_run this request st Hv)
      as (o & st' & events & Hrun & Hlog & Hqueue & Hreg & Hlen & _ & Hchain).
    exists o, st', events.
    split; [done|]. split; [done|].
    split; [rewrite Hqueue; by apply prefix_app_r|].
    split; [done|]. split; [done|].
    assert (valid this st') as Hv' by (unfold valid in *; lia).
    destruct (handle_run this request2 st' Hv')
      as (o2 & st2 & events2 & Hrun2 & Hlog2 & Hqueue2 & _ & _ & _ & Hchain2).
    rewrite Hreg in Hqueue2, Hchain2.
    exists o2, st2, events2.
    split; [done|]. split; [done|].
    split; [rewrite Hqueue2; by apply prefix_app_r|done].
Qed.

(** C5, as amended.  The dispatch that a next-handler call starts hands
    the request of that call, whatever it is, to the head of the queue.
    So, for units within the contract: the first unit receives the request
    passed to [handle]; every further unit receives exactly the request the
    unit before it passed to its next-handler; and a request passed to next
    is what every later unit receives as long as the units in between
    forward the request they received. *)
Theorem C5_unit_receives_request_passed_to_next this request st :
  valid this st ->
  Disciplined (array_at st (middleware this)) request ->
  (forall fuel q st0 m rest access request' k,
     array_at st0 q = m :: rest ->
     exec this
       (createRequestHandler (fun request => handleRequest (S fuel) this request q))
       (Next access request' k) st0 =
     match
       exec this
         (createRequestHandler (fun request => handleRequest fuel this request q))
         (process m request')
         (record (Processed m request') (array_set q rest st0))
     with
     | None => None
     | Some (settled, st1) =>
         exec this
           (createRequestHandler
              (fun request => handleRequest (S fuel) this request q))
           (k settled) st1
     end) /\
  exists o st' events,
    handle this request st = Some (o, st') /\
    log st' = log st ++ events /\
    (forall m, head (array_at st (middleware this)) = Some m ->
       processed events !! 0 = Some (m, request)) /\
    (forall i m r m' received,
       processed events !! i = Some (m, r) ->
       processed events !! S i = Some (m', received) ->
       next_request (process m r) = Some received) /\
    (forall i j m r request' m' received,
       i < j ->
       processed events !! i = Some (m, r) ->
       next_request (process m r) = Some request' ->
       (forall k mk rk, i < k < j -> processed events !! k = Some (mk, rk) ->
          next_request (process mk rk) = Some rk) ->
       processed events !! j = Some (m', received) ->
       received = request').
Proof.
  intros Hv Hd. split.
  { intros fuel q st0 m rest access request' k Hat.
    cbn [exec]. rewrite resolve_createRequestHandler.
    by rewrite (handleRequest_cons _ _ _ _ _ _ _ Hat). }
  destruct (handle_run this request st Hv)
    as (o & st' & events & Hrun & Hlog & _ & _ & _ & _ & Hchain).
  destruct (Hchain Hd) as [Hproc _].
  exists o, st', events. split; [done|]. split; [done|].
  rewrite Hproc.
  assert (forall i m r m' received,
            spec_chain (array_at st (middleware this)) request !! i = Some (m, r) ->
            spec_chain (array_at st (middleware this)) request !! S i
              = Some (m', received) ->
            next_request (process m r) = Some received) as Hcons
    by (intros; by eapply spec_chain_consecutive).
  split; [|split; [exact Hcons|]].
  - intros m Hhead. destruct (array_at st (middleware this)); [done|].
    simpl in Hhead. by injection Hhead as ->.
  - intros i j. intros. by eapply (consecutive_forwarded _ Hcons j i).
Qed.

(** C6.  The dispatcher hands errors on as they are: when the [process]
    of the head unit is rejected, the dispatch step is rejected with the
    same error, and a unit whose next-handler call is rejected goes on with
    that same error.  It settles to what the chain settles to and adds
    nothing of its own: for units within the contract the outcome of
    [handle] is the spec's outcome.  An error thrown by a unit, in front of
    which every unit awaits its next-handler without catching, is the
    rejection of [handle], the same error; so is the no-middleware error
    when every unit hands on. *)
Theorem C6_errors_propagate_unmodified this request st :
  valid this st ->
  (forall fuel q st0 m rest error st1,
     array_at st0 q = m :: rest ->
     exec this
       (createRequestHandler (fun request => handleRequest fuel this request q))
       (process m request)
       (record (Processed m request) (array_set q rest st0))
       = Some (Rejected error, st1) ->
     handleRequest (S fuel) this request q st0 = Some (Rejected error, st1)) /\
  (forall fuel q st0 access k error st1,
     handleRequest fuel this request q st0 = Some (Rejected error, st1) ->
     exec this
       (createRequestHandler (fun request => handleRequest fuel this request q))
       (Next access request k) st0 =
     exec this
       (createRequestHandler (fun request => handleRequest fuel this request q))
       (k (Rejected error)) st1) /\
  (Disciplined (array_at st (middleware this)) request ->
     exists st', handle this request st =
       Some (spec_outcome (array_at st (middleware this)) request, st')) /\
  (forall before m after error,
     array_at st (middleware this) = before ++ m :: after ->
     Forall Propagates before -> (forall r, process m r = Throw error) ->
     exists st', handle this request st = Some (Rejected error, st')) /\
  (Forall Propagates (array_at st (middleware this)) ->
     exists st', handle this request st =
       Some (Rejected NoMiddlewareAvailable, st')).
Proof.
  intros Hv.
  destruct (handle_run this request st Hv)
    as (o & st' & events & Hrun & _ & _ & _ & _ & _ & Hchain).
  split; [|split; [|split; [|split]]].
  - intros fuel q st0 m rest error st1 Hat Hprocess.
    by rewrite (handleRequest_cons _ _ _ _ _ _ _ Hat).
  - intros fuel q st0 access k error st1 Hcall.
    cbn [exec]. rewrite resolve_createRequestHandler. by rewrite Hcall.
  - intros Hd. destruct (Hchain Hd) as [_ <-]. by exists st'.
  - intros before m after error Hunits Hall Hm.
    rewrite Hunits in Hchain. destruct Hchain as [_ ->].
    { apply Disciplined_stops.
      - eapply Forall_impl; [exact Hall|]. apply Propagates_WellBehaved.
      - intros r. rewrite Hm. constructor. }
    rewrite (spec_outcome_throw before m after error) in Hrun by done.
    by exists st'.
  - intros Hall. destruct Hchain as [_ ->].
    { apply WellBehaved_Disciplined.
      eapply Forall_impl; [exact Hall|]. apply Propagates_WellBehaved. }
    rewrite spec_outcome_exhausted in Hrun by done. by exists st'.
Qed.

(** C9.  A call of [handle] removes nothing from the registered list and
    reorders nothing in it: afterwards the list is the one before followed
    by the units pushed during the call, so it is the same list when no
    unit registered anything; the units processed were taken from the
    copy.  After any sequence of [addMiddleware] and [handle] calls the
    list is the initial one followed by all units pushed, and on a new
    dispatcher it is exactly the units pushed. *)
Theorem C9_handle_leaves_registered_list_unchanged this request st :
  valid this st ->
  (exists o st' events,
     handle this request st = Some (o, st') /\
     log st' = log st ++ events /\
     array_at st' (middleware this) =
       array_at st (middleware this) ++ pushed events /\
     (pushed events = [] ->
        array_at st' (middleware this) = array_at st (middleware this)) /\
     array_at st (middleware this) =
       (processed events).*1 ++ array_at st' (length (heap st))) /\
  (forall operations, exists st' events,
     run this operations st = Some st' /\
     log st' = log st ++ events /\
     array_at st' (middleware this) =
       array_at st (middleware this) ++ pushed events) /\
  (forall operations, exists st' events,
     run (constructor st).1 operations (constructor st).2 = Some st' /\
     log st' = log st ++ events /\
     array_at st' (middleware (constructor st).1) = pushed events).
Proof.
  intros Hv. split; [|split].
  - destruct (handle_run this request st Hv)
      as (o & st' & events & Hrun & Hlog & Hqueue & Hreg & _).
    exists o, st', events. repeat split; try done.
    intros Hnone. by rewrite Hreg, Hnone, app_nil_r.
  - intros operations. by apply run_registered.
  - intros operations.
    destruct (run_registered (constructor st).1 operations (constructor st).2)
      as (st' & events & Hrun & Hlog & Hreg).
    { unfold valid, constructor; simpl. rewrite length_app; simpl; lia. }
    exists st', events. split; [done|]. split; [done|].
    rewrite Hreg.
    pose proof (array_at_alloc_new [] st) as Hnew.
    unfold constructor. simpl in *. by rewrite Hnew.
Qed.

(** C10.  The next-handler is a proxy whose every property read, [handle]
    included, gives the handler function itself, and whose call reaches the
    same function: [next(request)] and [next.handle(request)] are the same
    dispatch of the remaining queue, with the same result and the same
    store, and a unit that uses one behaves as the unit that uses the
    other. *)
Theorem C10_next_handler_call_and_handle_method_agree
    (handlerFunction : HandlerFunction) this request :
  (forall property,
     resolve (createRequestHandler handlerFunction) (Member property)
       = handlerFunction) /\
  resolve (createRequestHandler handlerFunction) Call = handlerFunction /\
  (forall fuel q st,
     resolve (createRequestHandler
                (fun request => handleRequest fuel this request q))
       (Member "handle") request st
     = handleRequest fuel this request q st /\
     resolve (createRequestHandler
                (fun request => handleRequest fuel this request q))
       Call request st
     = handleRequest fuel this request q st) /\
  (forall property k st,
     exec this (createRequestHandler handlerFunction)
       (Next (Member property) request k) st =
     exec this (createRequestHandler handlerFunction)
       (Next Call request k) st).
Proof. repeat split. Qed.

End Facts.

(** ** The same on concrete dispatchers *)

Import Examples.

Lemma forwarding_Propagates access rewrite :
  Propagates (forwarding access rewrite).
Proof.
  intros request. eexists access, (rewrite request), _.
  split; [reflexivity|]. split; [|reflexivity].
  intros [response|reason]; constructor.
Defined.

Lemma forwarding_WellBehaved access rewrite :
  WellBehaved (forwarding access rewrite).
Proof.
  intros request. constructor. intros [response|reason]; constructor.
Defined.

Lemma forwarding_CallsNext access rewrite :
  CallsNext (forwarding access rewrite).
Proof. intros request. by eexists. Defined.

Lemma responding_Terminal response : Terminal (responding response).
Proof. intros request. constructor. Defined.

Lemma registering_WellBehaved m : WellBehaved (registering m).
Proof.
  intros request. constructor. constructor.
  intros [response|reason]; constructor.
Defined.

(** [Forall P units] for an explicit list, each unit by [tac]. *)
Ltac each_unit tac :=
  repeat (apply Forall_cons_2; [tac|]); apply Forall_nil_2.

Lemma valid_store units : valid this0 (store units).
Proof. unfold valid. simpl. lia. Defined.

(** All next-handlers of one call share the queue: a unit that calls next
    a second time reaches the unit after the one that answered its first
    call.  Here [c] responds without calling next, and [d] is processed all
    the same, still in registration order. *)
Remark second_next_call_reaches_the_following_unit :
  exists st',
    handle this0 "r" (store [calling_twice; unit_c; unit_d]) =
      Some (Fulfilled 404, st') /\
    processed (log st') =
      [(calling_twice, "r"); (unit_c, "r"); (unit_d, "r")].
Proof. eexists. split; reflexivity. Qed.

(** C1 on the chain [a; b; c; d], where [c] responds: [a], [b] and [c] are
    processed, [d] is not. *)
Lemma C1_witness :
  valid this0 (store [unit_a; unit_b; unit_c; unit_d]) /\
  exists o st' events,
    handle this0 "r" (store [unit_a; unit_b; unit_c; unit_d]) = Some (o, st') /\
    log st' = events /\
    (processed events).*1 = [unit_a; unit_b; unit_c].
Proof.
  split; [apply valid_store|].
  destruct (C1_handle_invokes_units_in_registration_order this0 "r"
              (store [unit_a; unit_b; unit_c; unit_d]) (valid_store _))
    as (o & st' & events & Hrun & Hlog & _ & _ & _ & Hstop).
  exists o, st', events. split; [exact Hrun|]. split; [exact Hlog|].
  apply (Hstop [unit_a; unit_b] unit_c [unit_d] eq_refl).
  - each_unit ltac:(apply forwarding_WellBehaved).
  - each_unit ltac:(apply forwarding_CallsNext).
  - apply responding_Terminal.
Defined.

(** C2 with nothing registered, and on the chain [a; b] whose last unit
    hands on. *)
Lemma C2_witness :
  (exists st', handle this0 "r" (store []) =
     Some (Rejected NoMiddlewareAvailable, st')) /\
  (exists st' events,
     handle this0 "r" (store [unit_a; unit_b]) =
       Some (Rejected NoMiddlewareAvailable, st') /\
     log st' = events /\
     (processed events).*1 = [unit_a; unit_b]).
Proof.
  destruct (C2_empty_queue_fails_with_no_middleware (Response := nat) this0 "r")
    as (Hempty & _ & _ & Hlast).
  split.
  - eexists. apply Hempty. reflexivity.
  - apply (Hlast (store [unit_a; unit_b]) (valid_store _)).
    each_unit ltac:(apply forwarding_Propagates).
Defined.

(** C4 on a dispatcher whose only unit registers [c] and hands on: the
    call in flight finds its queue exhausted, the next call reaches [c]. *)
Lemma C4_witness :
  valid this0 (store [registering unit_c]) /\
  exists st' st2,
    handle this0 "r" (store [registering unit_c]) =
      Some (Rejected NoMiddlewareAvailable, st') /\
    array_at st' (middleware this0) = [registering unit_c; unit_c] /\
    handle this0 "s" st' = Some (Fulfilled 200, st2).
Proof.
  split; [apply valid_store|].
  destruct (C4_handle_dispatches_on_a_snapshot this0 "r" "s"
              (store [registering unit_c]) (valid_store _))
    as (_ & o & st' & events & Hrun & Hlog & _ & Hchain & Hreg &
        o2 & st2 & events2 & Hrun2 & _ & _ & Hchain2).
  destruct Hchain as [Hproc ->].
  { apply WellBehaved_Disciplined.
    each_unit ltac:(apply registering_WellBehaved). }
  assert (events = [Processed (registering unit_c) "r"; Pushed unit_c]) as ->.
  { vm_compute in Hrun. injection Hrun as <-. exact (eq_sym Hlog). }
  destruct Hchain2 as [_ ->].
  { apply WellBehaved_Disciplined. simpl.
    each_unit ltac:(first [apply registering_WellBehaved
                          |intros request; constructor]). }
  exists st', st2. split; [exact Hrun|]. split; [exact Hreg|exact Hrun2].
Defined.

(** C5 on the chain [a; b; c]: [a] receives the request of [handle]. *)
Lemma C5_witness :
  valid this0 (store [unit_a; unit_b; unit_c]) /\
  Disciplined [unit_a; unit_b; unit_c] "r" /\
  exists o st' events,
    handle this0 "r" (store [unit_a; unit_b; unit_c]) = Some (o, st') /\
    log st' = events /\
    processed events !! 0 = Some (unit_a, "r").
Proof.
  assert (Disciplined [unit_a; unit_b; unit_c] "r") as Hd.
  { apply WellBehaved_Disciplined.
    each_unit ltac:(first [apply forwarding_WellBehaved
                          |intros request; constructor]). }
  split; [apply valid_store|]. split; [exact Hd|].
  destruct (C5_unit_receives_request_passed_to_next this0 "r"
              (store [unit_a; unit_b; unit_c]) (valid_store _) Hd)
    as (_ & o & st' & events & Hrun & Hlog & Hhead & _).
  exists o, st', events. split; [exact Hrun|]. split; [exact Hlog|].
  by apply Hhead.
Defined.

(** C5 as stated fails on the chain [a; b; c]: [a] passes "r/a" to its
    next-handler, [b] receives it and passes "r/a/b", and that, not "r/a",
    is what the downstream unit [c] receives. *)
Lemma C5_counterexample :
  exists o st',
    handle this0 "r" (store [unit_a; unit_b; unit_c]) = Some (o, st') /\
    processed (log st') =
      [(unit_a, "r"); (unit_b, "r/a"); (unit_c, "r/a/b")] /\
    ~ downstream_receives_exactly (processed (log st')).
Proof.
  eexists _, _. split; [reflexivity|]. split; [reflexivity|].
  intros Hall.
  pose proof (Hall 0 2 unit_a "r" "r/a" unit_c "r/a/b"
                ltac:(lia) eq_refl eq_refl eq_refl) as Habs.
  discriminate Habs.
Qed.

(** C6 on the chain [a; b; failing; d]: the error of the third unit is the
    rejection of [handle]. *)
Lemma C6_witness :
  valid this0 (store [unit_a; unit_b; failing (Error "boom"); unit_d]) /\
  exists st',
    handle this0 "r" (store [unit_a; unit_b; failing (Error "boom"); unit_d]) =
      Some (Rejected (Error "boom"), st').
Proof.
  split; [apply valid_store|].
  destruct (C6_errors_propagate_unmodified this0 "r"
              (store [unit_a; unit_b; failing (Error "boom"); unit_d])
              (valid_store _)) as (_ & _ & _ & Hthrow & _).
  apply (Hthrow [unit_a; unit_b] (failing (Error "boom")) [unit_d]
           (Error "boom") eq_refl).
  - each_unit ltac:(apply forwarding_Propagates).
  - reflexivity.
Defined.

(** C9 on a dispatcher with a unit that registers another one. *)
Lemma C9_witness :
  valid this0 (store [registering unit_c; unit_d]) /\
  exists o st' events,
    handle this0 "r" (store [registering unit_c; unit_d]) = Some (o, st') /\
    log st' = events /\
    array_at st' (middleware this0) =
      [registering unit_c; unit_d] ++ pushed events.
Proof.
  split; [apply valid_store|].
  destruct (C9_handle_leaves_registered_list_unchanged this0 "r"
              (store [registering unit_c; unit_d]) (valid_store _))
    as ((o & st' & events & Hrun & Hlog & Hreg & _) & _).
  exists o, st', events. split; [exact Hrun|]. split; [exact Hlog|exact Hreg].
Defined.

End RequestHandlerFacts.

(** * Properties of the transport adapter *)

Module ServerFacts.
Import Server.

Lemma flat_length pairs : length (flat pairs) = 2 * length pairs.
Proof. induction pairs as [|[name value] pairs IH]; simpl; lia. Qed.

Lemma join_two separator v w : join separator [v; w] = v +:+ separator +:+ w.
Proof. done. Qed.

Section Conversion.
Context {Request Body : Type}.
Context `{RequestInterface Request} `{RequestFactoryInterface Request}.

Implicit Types (request : Request) (pairs : list (string * string)).

(** The loop over the flat array is the fold over its pairs, front to
    back. *)
Lemma withRawHeaders_flat pairs :
  forall steps before request,
    length pairs <= steps ->
    withRawHeaders steps (before ++ flat pairs) (length before) request =
    foldl (fun request '(name, value) => withHeader request name (Some value))
      request pairs.
Proof.
  induction pairs as [|[name value] pairs IH];
    intros steps before request Hsteps; simpl.
  - rewrite app_nil_r. destruct steps as [|steps]; simpl; [done|].
    by rewrite Nat.ltb_irrefl.
  - destruct steps as [|steps]; simpl in *; [lia|].
    assert ((length before <? length (before ++ name :: value :: flat pairs))
            = true)
      as -> by (apply Nat.ltb_lt; rewrite length_app; simpl; lia).
    rewrite lookup_app_r by lia. rewrite Nat.sub_diag. simpl.
    rewrite lookup_app_r by lia.
    replace (length before + 1 - length before) with 1 by lia. simpl.
    replace (before ++ name :: value :: flat pairs)
      with ((before ++ [name; value]) ++ flat pairs)
      by (by rewrite <-app_assoc).
    replace (length before + 2) with (length (before ++ [name; value]))
      by (rewrite length_app; simpl; lia).
    apply IH. lia.
Qed.

Lemma incomingRequest_flat (this : @Server Request Body) req pairs :
  rawHeaders req = flat pairs ->
  incomingRequest this req =
  foldl (fun request '(name, value) => withHeader request name (Some value))
    (withBody
       (createRequest (method req)
          (urlScheme this +:+ "://" +:+ template (host req) +:+ url req))
       req)
    pairs.
Proof.
  intros Hraw. unfold incomingRequest. rewrite Hraw.
  apply (withRawHeaders_flat pairs _ []).
  rewrite flat_length. lia.
Qed.

(** ** Joining the values of the response headers *)

Lemma foldl_join_lookup (entries : list (string * list string)) :
  forall (joined : gmap string string) name,
    NoDup entries.*1 ->
    foldl (fun headers '(name, values) => <[name := join "," values]> headers)
      joined entries !! name =
    match (list_to_map entries : gmap string (list string)) !! name with
    | Some values => Some (join "," values)
    | None => joined !! name
    end.
Proof.
  induction entries as [|[name' values'] entries IH]; intros joined name Hnodup;
    simpl.
  - by rewrite lookup_empty.
  - apply NoDup_cons in Hnodup as [Hfresh Hnodup].
    rewrite IH by done.
    destruct (decide (name' = name)) as [->|Hne].
    + rewrite lookup_insert_eq.
      rewrite (not_elem_of_list_to_map_1 _ _ Hfresh).
      by rewrite lookup_insert_eq.
    + rewrite !lookup_insert_ne by done. done.
Qed.

Lemma joinedHeaders_fmap (headers : gmap string (list string)) :
  joinedHeaders headers = join "," <$> headers.
Proof.
  apply map_eq. intros name. unfold joinedHeaders.
  rewrite foldl_join_lookup by apply NoDup_fst_map_to_list.
  rewrite list_to_map_to_list, lookup_fmap, lookup_empty.
  by destruct (headers !! name).
Qed.

(** C7.  When the dispatcher answers with [response], the adapter pipes
    the body and writes one head whose header object has, for each header
    name of the response and for no other name, the values of that header
    joined with a comma, in their order: the values 1 and 3 of X-A are
    written as "1,3".  (The line "X-A: 1,3" is how node writes that
    entry.) *)
Theorem C7_response_header_values_joined_with_comma
    (this : @Server Request Body) req response :
  requestHandler this (incomingRequest this req) = Fulfilled response ->
  handleRequest this req =
    Fulfilled
      [Pipe (body response);
       WriteHead (statusCode response) (reasonPhrase response)
         (join "," <$> headers response)] /\
  (forall name,
     joinedHeaders (headers response) !! name =
     join "," <$> headers response !! name) /\
  (headers response !! "X-A" = Some ["1"; "3"] ->
   joinedHeaders (headers response) !! "X-A" = Some "1,3").
Proof.
  intros Hresponse. unfold handleRequest. rewrite Hresponse.
  rewrite joinedHeaders_fmap. split; [done|]. split.
  - intros name. by rewrite lookup_fmap.
  - intros Hxa. by rewrite lookup_fmap, Hxa.
Qed.

End Conversion.

(** ** Header folding under the header contract *)

Section Folding.
Context {Request Body : Type}.
Context `{RequestInterface Request} `{RequestFactoryInterface Request}.

Implicit Types (request : Request) (pairs : list (string * string)).

Lemma header_values_foldl pairs request name :
  HeaderContract Request ->
  header_values
    (foldl (fun request '(name, value) => withHeader request name (Some value))
       request pairs) name =
  header_values request name ++ (filter (fun entry => entry.1 = name) pairs).*2.
Proof.
  intros contract. revert request.
  induction pairs as [|[name' value'] pairs IH]; intros request; simpl.
  - by rewrite app_nil_r.
  - rewrite IH, header_values_withHeader.
    rewrite filter_cons. simpl.
    destruct (decide (name' = name)) as [->|Hne]; simpl.
    + by rewrite <-app_assoc.
    + done.
Qed.

(** C3.  For raw headers that are the flat sequence of [pairs], the
    Request handed to the dispatcher is the new Request with its body,
    folded with [withHeader] over the pairs from first to last.  Under the
    header contract of the HTTP library (a with-header adds the value after
    those the name already has), the Request has, for every name, the values
    of that name in the order of the raw headers, duplicates kept: for
    X-A 1, X-B 2, X-A 3 it has X-A with 1, 3 and X-B with 2. *)
Theorem C3_raw_headers_folded_in_order
    (this : @Server Request Body) req pairs :
  rawHeaders req = flat pairs ->
  HeaderContract Request ->
  incomingRequest this req =
    foldl (fun request '(name, value) => withHeader request name (Some value))
      (withBody
         (createRequest (method req)
            (urlScheme this +:+ "://" +:+ template (host req) +:+ url req))
         req)
      pairs /\
  handleRequest this req =
    match requestHandler this (incomingRequest this req) with
    | Rejected reason => Rejected reason
    | Fulfilled response =>
        Fulfilled
          [Pipe (body response);
           WriteHead (statusCode response) (reasonPhrase response)
             (joinedHeaders (headers response))]
    end /\
  (forall name,
     header_values (incomingRequest this req) name =
     (filter (fun entry => entry.1 = name) pairs).*2) /\
  (pairs = [("X-A", "1"); ("X-B", "2"); ("X-A", "3")] ->
   header_values (incomingRequest this req) "X-A" = ["1"; "3"] /\
   header_values (incomingRequest this req) "X-B" = ["2"]).
Proof.
  intros Hraw contract.
  assert (forall name,
            header_values (incomingRequest this req) name =
            (filter (fun entry => entry.1 = name) pairs).*2) as Hvalues.
  { intros name. rewrite (incomingRequest_flat this req pairs Hraw).
    rewrite header_values_foldl, header_values_withBody,
      header_values_createRequest by done. done. }
  split; [by apply incomingRequest_flat|]. split; [done|].
  split; [exact Hvalues|].
  intros ->. by rewrite !Hvalues.
Qed.

End Folding.

(** The Request modelled from the spec keeps the header contract. *)
Lemma spec_header_values_withHeader request name value name' :
  spec_header_values (withHeader request name (Some value)) name' =
  if decide (name = name')
  then spec_header_values request name' ++ [value]
  else spec_header_values request name'.
Proof.
  unfold spec_header_values. simpl.
  rewrite filter_app, fmap_app, filter_cons, filter_nil. simpl.
  destruct (decide (name = name')); simpl; [done|by rewrite app_nil_r].
Defined.

Lemma SpecRequest_HeaderContract : HeaderContract SpecRequest.
Proof.
  split; [done|done|]. apply spec_header_values_withHeader.
Defined.

Import Examples.

(** C3 on the raw headers X-A 1, X-B 2, X-A 3 and the Request modelled
    from the spec. *)
Lemma C3_witness :
  rawHeaders example_message = flat [("X-A", "1"); ("X-B", "2"); ("X-A", "3")] /\
  HeaderContract SpecRequest /\
  spec_header_values (incomingRequest example_server example_message) "X-A"
    = ["1"; "3"] /\
  spec_header_values (incomingRequest example_server example_message) "X-B"
    = ["2"].
Proof.
  split; [reflexivity|]. split; [apply SpecRequest_HeaderContract|].
  destruct (C3_raw_headers_folded_in_order
              example_server example_message
              [("X-A", "1"); ("X-B", "2"); ("X-A", "3")] eq_refl
              SpecRequest_HeaderContract)
    as (_ & _ & _ & Hexample).
  exact (Hexample eq_refl).
Defined.

(** C7 on a response with the header X-A: 1, 3. *)
Lemma C7_witness :
  requestHandler example_server (incomingRequest example_server example_message)
    = Fulfilled example_response /\
  handleRequest example_server example_message =
    Fulfilled [Pipe "hello"; WriteHead 200 "OK" {["X-A" := "1,3"]}].
Proof.
  split; [reflexivity|].
  destruct (C7_response_header_values_joined_with_comma
              example_server example_message example_response eq_refl)
    as (Hwritten & _).
  rewrite Hwritten. unfold example_response. simpl.
  by rewrite map_fmap_singleton.
Defined.

End ServerFacts.

(** * Properties of the builder *)

Module ServerBuilderFacts.
Import ServerBuilder.

Section Build.
Context {NodeServer Configuration Logger Handler Server : Type}.
Context (new_RequestHandler : Handler)
  (ConfigurationBuilder_build : Settled Configuration)
  (LoggerBuilder_build : Logger)
  (construct_Server :
     gmap string (@Binding Configuration Logger Handler Server) ->
     NodeServer -> Settled Server).

Local Abbreviation ServerBuilder :=
  (@ServerBuilder NodeServer Configuration Logger Handler Server).
Local Abbreviation build :=
  (build new_RequestHandler ConfigurationBuilder_build LoggerBuilder_build
     construct_Server).
Local Abbreviation configureContainer :=
  (configureContainer new_RequestHandler ConfigurationBuilder_build
     LoggerBuilder_build).

Implicit Types (this : ServerBuilder).

(** Without a startup class the builder is not changed by the steps in
    front of the check. *)
Lemma configureContainer_no_startup this configuration :
  startupClass this = None ->
  createConfiguration ConfigurationBuilder_build this = Fulfilled configuration ->
  exists container, configureContainer this = Fulfilled (this, container).
Proof.
  intros Hstartup Hconfiguration. unfold ServerBuilder.configureContainer.
  rewrite Hconfiguration, Hstartup. by eexists.
Qed.

(** C8, as amended.  When the steps of [build] in front of the check
    complete (the configuration is there or can be built, the startup
    class, if any, is constructed and its [configure] returns) and leave
    the builder without a server factory, [build] is rejected with the
    error "No server factory provided"; this is so for a builder that was
    given neither a startup class nor a factory.  When one of those steps
    fails, [build] is rejected with that failure.  [build] gives a server
    only if a factory was there at the check and its call returned a node
    server: a rejection of [build] comes before any server exists. *)
Theorem C8_build_rejects_without_server_factory this :
  (forall this' container,
     configureContainer this = Fulfilled (this', container) ->
     serverFactory this' = None ->
     build this = Rejected NoServerFactory) /\
  (forall configuration,
     serverFactory this = None -> startupClass this = None ->
     createConfiguration ConfigurationBuilder_build this = Fulfilled configuration ->
     build this = Rejected NoServerFactory) /\
  (forall reason,
     configureContainer this = Rejected reason ->
     build this = Rejected reason) /\
  (forall server container,
     build this = Fulfilled (server, container) ->
     exists this' container' factory nodeServer,
       configureContainer this = Fulfilled (this', container') /\
       serverFactory this' = Some factory /\
       factory () = Fulfilled nodeServer /\
       construct_Server container' nodeServer = Fulfilled server).
Proof.
  split; [|split; [|split]].
  - intros this' container Hsteps Hnone. unfold ServerBuilder.build.
    by rewrite Hsteps, Hnone.
  - intros configuration Hnone Hstartup Hconfiguration.
    destruct (configureContainer_no_startup this configuration Hstartup
                Hconfiguration) as [container Hsteps].
    unfold ServerBuilder.build. by rewrite Hsteps, Hnone.
  - intros reason Hsteps. unfold ServerBuilder.build. by rewrite Hsteps.
  - intros server container. unfold ServerBuilder.build.
    destruct (configureContainer this) as [[this' container']|reason];
      [|done].
    destruct (serverFactory this') as [factory|] eqn:Hfactory; [|done].
    destruct (factory ()) as [nodeServer|reason] eqn:Hcall; [|done].
    destruct (construct_Server container' nodeServer) as [server'|reason]
      eqn:Hserver; [|done].
    intros [= <- <-]. by exists this', container', factory, nodeServer.
Qed.

End Build.

Import Examples.

(** C8 as stated fails on a builder that was given no server factory and
    a startup class whose [configure] throws: [build] is rejected, with the
    error of the startup class and not with "No server factory
    provided". *)
Lemma C8_counterexample :
  serverFactory builder_without_factory = None /\
  build tt (Fulfilled tt) tt (fun _ _ => Fulfilled tt) builder_without_factory
    = Rejected (Error "startup failed") /\
  build tt (Fulfilled tt) tt (fun _ _ => Fulfilled tt) builder_without_factory
    <> Rejected NoServerFactory.
Proof. split; [done|]. split; [done|]. discriminate. Qed.

(** C8 on a builder that was given nothing. *)
Lemma C8_witness :
  serverFactory new_builder = None /\
  startupClass new_builder = None /\
  createConfiguration (Fulfilled tt) new_builder = Fulfilled tt /\
  build tt (Fulfilled tt) tt (fun _ _ => Fulfilled tt) new_builder
    = Rejected NoServerFactory.
Proof.
  split; [reflexivity|]. split; [reflexivity|]. split; [reflexivity|].
  destruct (C8_build_rejects_without_server_factory tt (Fulfilled tt) tt
              (fun _ _ => Fulfilled tt) new_builder) as (_ & Hnew & _).
  exact (Hnew tt eq_refl eq_refl eq_refl).
Defined.

End ServerBuilderFacts.

(** * Further properties of the dispatcher *)

Module RequestHandlerExtras.
Import RequestHandler RequestHandlerFacts.

Section Extras.
Context {Request Response : Type}.

Local Abbreviation Middleware := (@Middleware Request Response).
Local Abbreviation State := (@State Request Response).

Implicit Types (st : State) (m : Middleware) (this other : RequestHandler)
  (request : Request) (units before after rest : list Middleware).

Lemma Transparent_Propagates m : Transparent m -> Propagates m.
Proof.
  intros Hm request.
  destruct (Hm request) as (access & request' & k & Hp & Hok & Hfail).
  exists access, request', k. split; [done|]. split; [|done].
  intros [response|error]; [rewrite Hok|rewrite Hfail]; constructor.
Qed.

Lemma Responds_Terminal response m : Responds response m -> Terminal m.
Proof. intros Hm request. rewrite Hm. constructor. Qed.

Lemma Recovers_WellBehaved recover m : Recovers recover m -> WellBehaved m.
Proof.
  intros Hm request.
  destruct (Hm request) as (access & request' & k & -> & Hok & Hfail).
  constructor. intros [response|error]; [rewrite Hok|rewrite Hfail];
    constructor.
Qed.

Lemma Forall_Transparent_WellBehaved units :
  Forall Transparent units -> Forall WellBehaved units.
Proof.
  intros Hall. eapply Forall_impl; [exact Hall|].
  intros m Hm. by apply Propagates_WellBehaved, Transparent_Propagates.
Qed.

Lemma Forall_Transparent_CallsNext units :
  Forall Transparent units -> Forall CallsNext units.
Proof.
  intros Hall. eapply Forall_impl; [exact Hall|].
  intros m Hm. by apply Propagates_CallsNext, Transparent_Propagates.
Qed.

(** The spec's outcome of transparent units in front of a unit that
    responds. *)
Lemma spec_outcome_respond before m after response request :
  Forall Transparent before -> Responds response m ->
  spec_outcome (before ++ m :: after) request = Fulfilled response.
Proof.
  revert request. induction before as [|u before IH]; intros request Hall Hm;
    simpl.
  - by rewrite Hm.
  - apply Forall_cons in Hall as [Hu Hall].
    destruct (Hu request) as (access & r' & k & -> & Hok & _). simpl.
    by rewrite IH, Hok.
Qed.

(** X1.  A response comes back as it is: when the units in front of [m] are
    transparent and [m] responds, [handle] is fulfilled with the response
    of [m], the units up to [m] have been processed and no unit behind
    it. *)
Theorem response_returned_through_transparent_units
    this request st before m after response :
  valid this st ->
  array_at st (middleware this) = before ++ m :: after ->
  Forall Transparent before ->
  Responds response m ->
  exists st' events,
    handle this request st = Some (Fulfilled response, st') /\
    log st' = log st ++ events /\
    (processed events).*1 = before ++ [m].
Proof.
  intros Hv Hunits Hall Hm.
  destruct (handle_run this request st Hv)
    as (o & st' & events & Hrun & Hlog & _ & _ & _ & _ & Hchain).
  rewrite Hunits in Hchain.
  destruct Hchain as [Hproc ->].
  { apply Disciplined_stops;
      [by apply Forall_Transparent_WellBehaved|by eapply Responds_Terminal]. }
  rewrite (spec_outcome_respond before m after response) in Hrun by done.
  exists st', events. split; [done|]. split; [done|].
  rewrite Hproc. apply spec_chain_stops;
    [by apply Forall_Transparent_CallsNext|by eapply Responds_Terminal].
Qed.

(** X2.  An error-handling unit at the front: when the first unit awaits its
    next-handler and answers a rejection with [recover error], [handle] is
    fulfilled whatever the rest of the chain does within the contract: with
    the response of the rest, or with the recovery of its failure.  With
    nothing behind the unit that failure is the no-middleware error. *)
Theorem error_handling_unit_turns_failures_into_responses
    this request st m rest recover :
  valid this st ->
  array_at st (middleware this) = m :: rest ->
  Recovers recover m ->
  Forall WellBehaved rest ->
  exists response st',
    handle this request st = Some (Fulfilled response, st') /\
    (forall request', next_request (process m request) = Some request' ->
       response =
         match spec_outcome rest request' with
         | Fulfilled answer => answer
         | Rejected error => recover error
         end) /\
    (rest = [] -> response = recover NoMiddlewareAvailable).
Proof.
  intros Hv Hunits Hm Hrest.
  destruct (handle_run this request st Hv)
    as (o & st' & events & Hrun & _ & _ & _ & _ & _ & Hchain).
  rewrite Hunits in Hchain.
  destruct Hchain as [_ ->].
  { apply WellBehaved_Disciplined. apply Forall_cons_2; [|done].
    by eapply Recovers_WellBehaved. }
  simpl in Hrun.
  destruct (Hm request) as (access & request' & k & Hp & Hok & Hfail).
  rewrite Hp in Hrun |- *. simpl in Hrun |- *.
  destruct (spec_outcome rest request') as [answer|error] eqn:Hrest_outcome.
  - rewrite Hok in Hrun. simpl in Hrun.
    exists answer, st'. split; [done|]. split.
    + intros r' [= <-]. by rewrite Hrest_outcome.
    + intros ->. done.
  - rewrite Hfail in Hrun. simpl in Hrun.
    exists (recover error), st'. split; [done|]. split.
    + intros r' [= <-]. by rewrite Hrest_outcome.
    + intros ->. simpl in Hrest_outcome. by injection Hrest_outcome as <-.
Qed.

(** ** Two dispatchers *)

Lemma run_frame this other operations :
  middleware this <> middleware other ->
  forall st, valid this st -> valid other st ->
  exists st',
    run this operations st = Some st' /\
    array_at st' (middleware other) = array_at st (middleware other).
Proof.
  intros Hne.
  induction operations as [|[m|request] operations IH]; intros st Hv Ho; simpl.
  - by exists st.
  - set (st1 := record (Pushed m) (addMiddleware this m st)).
    assert (valid this st1) as Hv1
      by (unfold valid, st1; simpl; by rewrite length_insert).
    assert (valid other st1) as Ho1
      by (unfold valid, st1; simpl; by rewrite length_insert).
    destruct (IH st1 Hv1 Ho1) as (st' & Hrun & Hother).
    exists st'. split; [done|]. rewrite Hother.
    unfold st1, addMiddleware, push.
    change (array_at (record ?e ?s) ?l) with (array_at s l).
    by apply array_at_set_ne.
  - destruct (handle_run this request st Hv)
      as (o & st1 & events1 & Hrun1 & _ & _ & _ & Hlen1 & Hframe1 & _).
    rewrite Hrun1.
    assert (valid this st1) as Hv1 by (unfold valid in *; lia).
    assert (valid other st1) as Ho1 by (unfold valid in *; lia).
    destruct (IH st1 Hv1 Ho1) as (st' & Hrun & Hother).
    exists st'. split; [done|]. rewrite Hother.
    apply Hframe1; [exact Ho|done].
Qed.

(** X3.  Every dispatcher has a list of its own: a new dispatcher starts with
    an empty list in a cell no dispatcher of the store has, and whatever is
    done with one dispatcher ([addMiddleware], [handle], any sequence of
    both, with whatever its units do) leaves the list registered with
    another one as it is. *)
Theorem dispatchers_do_not_share_middleware this other st :
  valid this st -> valid other st ->
  middleware this <> middleware other ->
  (forall operations, exists st',
     run this operations st = Some st' /\
     array_at st' (middleware other) = array_at st (middleware other)) /\
  (middleware (constructor st).1 <> middleware this /\
   valid (constructor st).1 (constructor st).2 /\
   array_at (constructor st).2 (middleware (constructor st).1) = [] /\
   array_at (constructor st).2 (middleware this) = array_at st (middleware this)).
Proof.
  intros Hv Ho Hne. split.
  - intros operations. by apply run_frame.
  - unfold constructor. simpl. repeat split.
    + unfold valid in Hv. lia.
    + unfold valid. simpl. rewrite length_app. simpl. lia.
    + apply (array_at_alloc_new [] st).
    + by apply (array_at_alloc_old [] st).
Qed.

(** X4.  [addMiddleware] puts the unit at the end, and [handle] reaches it
    last: on a chain of transparent units, which by itself ends in the
    no-middleware error, registering a unit that responds makes the next
    [handle] process the old units in their order, then the new one, and
    return its response. *)
Theorem addMiddleware_appends_and_handle_reaches_the_unit
    this request st m response :
  valid this st ->
  Forall Transparent (array_at st (middleware this)) ->
  Responds response m ->
  array_at (addMiddleware this m st) (middleware this) =
    array_at st (middleware this) ++ [m] /\
  (exists st', handle this request st =
     Some (Rejected NoMiddlewareAvailable, st')) /\
  (exists st' events,
     handle this request (addMiddleware this m st) =
       Some (Fulfilled response, st') /\
     log st' = log st ++ events /\
     (processed events).*1 = array_at st (middleware this) ++ [m]).
Proof.
  intros Hv Hall Hm.
  assert (array_at (addMiddleware this m st) (middleware this) =
          array_at st (middleware this) ++ [m]) as Hreg
    by (unfold addMiddleware, push; by apply array_at_set_eq).
  split; [exact Hreg|]. split.
  - destruct (handle_run this request st Hv)
      as (o & st' & events & Hrun & _ & _ & _ & _ & _ & Hchain).
    destruct Hchain as [_ ->].
    { apply WellBehaved_Disciplined.
      by apply Forall_Transparent_WellBehaved. }
    rewrite spec_outcome_exhausted in Hrun; [by exists st'|].
    eapply Forall_impl; [exact Hall|]. apply Transparent_Propagates.
  - assert (valid this (addMiddleware this m st)) as Hv1
      by (unfold valid, addMiddleware, push; simpl; by rewrite length_insert).
    destruct (handle_run this request (addMiddleware this m st) Hv1)
      as (o & st' & events & Hrun & Hlog & _ & _ & _ & _ & Hchain).
    rewrite Hreg in Hchain.
    destruct Hchain as [Hproc ->].
    { apply Disciplined_stops;
        [by apply Forall_Transparent_WellBehaved|by eapply Responds_Terminal]. }
    rewrite (spec_outcome_respond _ m [] response) in Hrun by done.
    exists st', events. split; [done|]. split; [done|].
    rewrite Hproc. apply spec_chain_stops;
      [by apply Forall_Transparent_CallsNext|by eapply Responds_Terminal].
Qed.

End Extras.

(** ** The same on concrete dispatchers *)

Import Examples.

Lemma forwarding_Transparent access rewrite :
  Transparent (forwarding access rewrite).
Proof.
  intros request. eexists access, (rewrite request), _.
  split; [reflexivity|]. split; reflexivity.
Defined.

Lemma valid_two (units units' : list (@Middleware string nat)) :
  valid this0 {| heap := [units; units']; log := [] |} /\
  valid {| middleware := 1 |} {| heap := [units; units']; log := [] |}.
Proof. unfold valid. simpl. lia. Defined.

(** [a] and [b] hand on, [c] answers 200, [d] is not reached. *)
Lemma response_returned_witness :
  valid this0 (store [unit_a; unit_b; unit_c; unit_d]) /\
  exists st' events,
    handle this0 "r" (store [unit_a; unit_b; unit_c; unit_d]) =
      Some (Fulfilled 200, st') /\
    log st' = events /\
    (processed events).*1 = [unit_a; unit_b; unit_c].
Proof.
  split; [apply valid_store|].
  apply (response_returned_through_transparent_units this0 "r"
           (store [unit_a; unit_b; unit_c; unit_d])
           [unit_a; unit_b] unit_c [unit_d] 200 (valid_store _) eq_refl).
  - each_unit ltac:(apply forwarding_Transparent).
  - intros request. reflexivity.
Defined.

(** The recovering unit in front of a unit that throws answers 500. *)
Lemma error_handling_witness :
  valid this0 (store [recovering; failing (Error "boom")]) /\
  exists st',
    handle this0 "r" (store [recovering; failing (Error "boom")]) =
      Some (Fulfilled 500, st').
Proof.
  split; [apply valid_store|].
  destruct (error_handling_unit_turns_failures_into_responses this0 "r"
              (store [recovering; failing (Error "boom")])
              recovering [failing (Error "boom")] (fun _ => 500)
              (valid_store _) eq_refl)
    as (response & st' & Hrun & Hresponse & _).
  - intros request. eexists Call, request, _.
    split; [reflexivity|]. split; reflexivity.
  - each_unit ltac:(intros request; constructor).
  - rewrite (Hresponse "r" eq_refl) in Hrun. by exists st'.
Defined.

(** Two dispatchers in one store: what is done with the first leaves the
    units of the second. *)
Lemma two_dispatchers_witness :
  exists st',
    run this0 [DoAddMiddleware unit_c; DoHandle "r"; DoAddMiddleware unit_d]
      {| heap := [[registering unit_a]; [unit_b]]; log := [] |} = Some st' /\
    array_at st' 1 = [unit_b].
Proof.
  destruct (dispatchers_do_not_share_middleware this0 {| middleware := 1 |}
              {| heap := [[registering unit_a]; [unit_b]]; log := [] |}
              (proj1 (valid_two _ _)) (proj2 (valid_two _ _))
              ltac:(discriminate)) as [Hrun _].
  apply (Hrun [DoAddMiddleware unit_c; DoHandle "r"; DoAddMiddleware unit_d]).
Defined.

(** A chain of two forwarding units, before and after [c] is registered. *)
Lemma addMiddleware_witness :
  valid this0 (store [unit_a; unit_b]) /\
  (exists st', handle this0 "r" (store [unit_a; unit_b]) =
     Some (Rejected NoMiddlewareAvailable, st')) /\
  (exists st' events,
     handle this0 "r" (addMiddleware this0 unit_c (store [unit_a; unit_b])) =
       Some (Fulfilled 200, st') /\
     log st' = events /\
     (processed events).*1 = [unit_a; unit_b; unit_c]).
Proof.
  split; [apply valid_store|].
  destruct (addMiddleware_appends_and_handle_reaches_the_unit this0 "r"
              (store [unit_a; unit_b]) unit_c 200 (valid_store _))
    as (_ & Hbefore & Hafter).
  - each_unit ltac:(apply forwarding_Transparent).
  - intros request. reflexivity.
  - split; [exact Hbefore|exact Hafter].
Defined.

End RequestHandlerExtras.

(** * Further properties of the transport adapter *)

Module ServerExtras.
Import Server ServerFacts.

Section Conversion.
Context {Request Body : Type}.
Context `{RequestInterface Request} `{RequestFactoryInterface Request}.

Implicit Types (request : Request) (pairs : list (string * string))
  (this : @Server Request Body).

(** The loop over a flat array that goes on behind the pairs: after the
    pairs it stands behind them, with the pairs folded in. *)
Lemma withRawHeaders_pairs pairs :
  forall steps before tail request,
    length pairs <= steps ->
    withRawHeaders steps (before ++ flat pairs ++ tail) (length before) request =
    withRawHeaders (steps - length pairs) (before ++ flat pairs ++ tail)
      (length before + 2 * length pairs)
      (foldl (fun request '(name, value) => withHeader request name (Some value))
         request pairs).
Proof.
  induction pairs as [|[name value] pairs IH];
    intros steps before tail request Hsteps.
  - simpl. by rewrite Nat.sub_0_r, Nat.add_0_r.
  - destruct steps as [|steps]; [simpl in Hsteps; lia|].
    cbn [withRawHeaders flat foldl length].
    assert ((length before
               <? length (before ++ (name :: value :: flat pairs) ++ tail))
            = true) as ->
      by (apply Nat.ltb_lt; rewrite length_app; simpl; lia).
    rewrite lookup_app_r by lia. rewrite Nat.sub_diag. cbn [lookup list_lookup app].
    rewrite (lookup_app_r before) by lia.
    replace (length before + 1 - length before) with 1 by lia.
    cbn [lookup list_lookup app].
    replace (before ++ name :: value :: flat pairs ++ tail)
      with ((before ++ [name; value]) ++ flat pairs ++ tail)
      by (by rewrite <-app_assoc).
    replace (length before + 2) with (length (before ++ [name; value]))
      by (rewrite length_app; simpl; lia).
    rewrite IH by (simpl in Hsteps; lia).
    replace (S steps - S (length pairs)) with (steps - length pairs) by lia.
    replace (length (before ++ [name; value]) + 2 * length pairs)
      with (length before + 2 * S (length pairs))
      by (rewrite length_app; simpl; lia).
    done.
Qed.

(** X5.  Raw headers that end with a name without a value: the loop reads one
    past the end of the array, and the last name is given to [withHeader]
    with [undefined], after all pairs in front of it were folded in their
    order. *)
Theorem trailing_raw_header_name_gets_undefined this req pairs name :
  rawHeaders req = flat pairs ++ [name] ->
  incomingRequest this req =
    withHeader
      (foldl (fun request '(name, value) => withHeader request name (Some value))
         (withBody
            (createRequest (method req)
               (urlScheme this +:+ "://" +:+ template (host req) +:+ url req))
            req)
         pairs)
      name None.
Proof.
  intros Hraw. unfold incomingRequest. rewrite Hraw.
  rewrite (withRawHeaders_pairs pairs _ [] [name])
    by (rewrite length_app, flat_length; simpl; lia).
  rewrite length_app, flat_length. simpl length.
  replace (2 * length pairs + 1 - length pairs) with (S (length pairs)) by lia.
  cbn [withRawHeaders app].
  assert ((0 + 2 * length pairs <? length (flat pairs ++ [name])) = true) as ->
    by (apply Nat.ltb_lt; rewrite length_app, flat_length; simpl; lia).
  rewrite lookup_app_r by (rewrite flat_length; lia).
  replace (0 + 2 * length pairs - length (flat pairs)) with 0
    by (rewrite flat_length; lia).
  cbn [lookup list_lookup].
  rewrite (lookup_ge_None_2 (flat pairs ++ [name]))
    by (rewrite length_app, flat_length; simpl; lia).
  destruct (length pairs) as [|n] eqn:Hn; [done|]. cbn [withRawHeaders].
  assert ((0 + 2 * S n + 2 <? length (flat pairs ++ [name])) = false) as ->;
    [|done].
  apply Nat.ltb_ge. rewrite length_app, flat_length, Hn. simpl. lia.
Qed.

(** ** The adapter over the middleware dispatcher *)

(** X6.  An adapter whose request handler is a dispatcher of the store: what is
    written to the transport is decided by the chain on the converted
    request.  With nothing registered (the dispatcher as the builder
    creates it) every request ends in the no-middleware rejection and
    nothing is written; for units within the contract the adapter pipes the
    body and writes the head of the response the chain settles to, and
    writes nothing when the chain fails. *)
Theorem adapter_writes_what_the_chain_settles_to
    (dispatcherObject : RequestHandler.RequestHandler)
    (st : @RequestHandler.State Request (@Response Body)) this req :
  RequestHandler.valid dispatcherObject st ->
  requestHandler this = dispatcher dispatcherObject st ->
  (RequestHandler.array_at st (RequestHandler.middleware dispatcherObject) = [] ->
   handleRequest this req = Rejected RequestHandler.NoMiddlewareAvailable) /\
  (RequestHandler.Disciplined
     (RequestHandler.array_at st (RequestHandler.middleware dispatcherObject))
     (incomingRequest this req) ->
   handleRequest this req =
     match
       RequestHandler.spec_outcome
         (RequestHandler.array_at st (RequestHandler.middleware dispatcherObject))
         (incomingRequest this req)
     with
     | Rejected reason => Rejected reason
     | Fulfilled response =>
         Fulfilled
           [Pipe (body response);
            WriteHead (statusCode response) (reasonPhrase response)
              (join "," <$> headers response)]
     end).
Proof.
  intros Hv Hhandler.
  destruct (RequestHandlerFacts.handle_run dispatcherObject
              (incomingRequest this req) st Hv)
    as (o & st' & events & Hrun & _ & _ & _ & _ & _ & Hchain).
  assert (requestHandler this (incomingRequest this req) = o) as Ho
    by (rewrite Hhandler; unfold dispatcher; by rewrite Hrun).
  unfold handleRequest. rewrite Ho. split.
  - intros Hempty. rewrite Hempty in Hchain.
    destruct Hchain as [_ ->]; [by constructor|done].
  - intros Hd. destruct (Hchain Hd) as [_ ->].
    destruct (RequestHandler.spec_outcome _ _) as [response|reason]; [|done].
    by rewrite joinedHeaders_fmap.
Qed.

(** ** Starting, stopping and the events of the node server *)

(** X7.  The adapter passes every [start] to [listen], with the port it was
    given or none, and every [stop] to [close], one call for one call and
    in order; it logs one information entry for each listening event (with
    the address the node server reports) and each close event and none for
    anything else; and it handles every request event, in order, whether
    the server was stopped or not. *)
Theorem lifecycle_is_passed_on_one_to_one this interactions (w : Running) :
  listenCalls (nodeServer (foldl (fun w i => interact this i w) w interactions))
    = listenCalls (nodeServer w) ++ started interactions /\
  closeCalls (nodeServer (foldl (fun w i => interact this i w) w interactions))
    = closeCalls (nodeServer w) + stopped interactions /\
  logger (foldl (fun w i => interact this i w) w interactions)
    = logger w ++
      omap (fun i =>
              match i with
              | Emit ListeningEvent =>
                  Some (Info "server is listening on port {port}"
                          (Some (bound (nodeServer w))))
              | Emit CloseEvent => Some (Info "server is shutting down" None)
              | _ => None
              end) interactions /\
  handled (foldl (fun w i => interact this i w) w interactions)
    = handled w ++ (handleRequest this <$> requested interactions).
Proof.
  revert w.
  induction interactions as [|i interactions IH]; intros w.
  - simpl. by rewrite !app_nil_r, Nat.add_0_r.
  - cbn [foldl].
    destruct (IH (interact this i w)) as (-> & -> & -> & ->).
    unfold started, stopped, requested.
    destruct i as [port| |[| |req']]; simpl;
      rewrite <-?app_assoc; repeat split; try done; lia.
Qed.

End Conversion.

Import Examples.

(** The message with raw headers X-A, 1, X-B: X-B is folded last, with an
    undefined value. *)
Lemma trailing_raw_header_witness :
  rawHeaders truncated_message = flat [("X-A", "1")] ++ ["X-B"] /\
  spec_headers (incomingRequest example_server truncated_message) =
    [("X-A", "1"); ("X-B", "undefined")].
Proof.
  split; [reflexivity|].
  rewrite (trailing_raw_header_name_gets_undefined example_server
             truncated_message [("X-A", "1")] "X-B" eq_refl).
  reflexivity.
Defined.

(** An adapter over a dispatcher whose one unit answers with the example
    response, and over a dispatcher without units. *)
Lemma adapter_over_dispatcher_witness :
  handleRequest
    (constructor false
       (dispatcher this0
          {| RequestHandler.heap := [[answering]]; RequestHandler.log := [] |})).1
    example_message =
    Fulfilled [Pipe "hello"; WriteHead 200 "OK" {["X-A" := "1,3"]}] /\
  handleRequest
    (constructor false
       (dispatcher (Response := @Response string) this0
          {| RequestHandler.heap := [[]]; RequestHandler.log := [] |})).1
    example_message =
    Rejected RequestHandler.NoMiddlewareAvailable.
Proof.
  split.
  - destruct (adapter_writes_what_the_chain_settles_to this0
                {| RequestHandler.heap := [[answering]];
                   RequestHandler.log := [] |}
                (constructor false
                   (dispatcher this0
                      {| RequestHandler.heap := [[answering]];
                         RequestHandler.log := [] |})).1
                example_message) as [_ Hchain].
    + unfold RequestHandler.valid. simpl. lia.
    + reflexivity.
    + rewrite Hchain.
      * simpl. by rewrite map_fmap_singleton.
      * apply RequestHandlerFacts.WellBehaved_Disciplined.
        apply Forall_cons_2; [|apply Forall_nil_2].
        intros request. constructor.
  - destruct (adapter_writes_what_the_chain_settles_to
                (Request := SpecRequest) (Body := string) this0
                {| RequestHandler.heap := [[]]; RequestHandler.log := [] |}
                (constructor false
                   (dispatcher this0
                      {| RequestHandler.heap := [[]];
                         RequestHandler.log := [] |})).1
                example_message) as [Hempty _].
    + unfold RequestHandler.valid. simpl. lia.
    + reflexivity.
    + by apply Hempty.
Defined.

End ServerExtras.

(** * Further properties of the builder *)

Module ServerBuilderExtras.
Import ServerBuilder.

Section Build.
Context {NodeServer Configuration Logger Handler Server : Type}.
Context (new_RequestHandler : Handler)
  (construct_Server :
     gmap string (@Binding Configuration Logger Handler Server) ->
     NodeServer -> Settled Server).

Local Abbreviation ServerBuilder :=
  (@ServerBuilder NodeServer Configuration Logger Handler Server).
Local Abbreviation build default defaultLogger :=
  (build new_RequestHandler default defaultLogger construct_Server).
Local Abbreviation configureContainer :=
  (configureContainer new_RequestHandler).
Local Abbreviation StartupAction :=
  (@StartupAction NodeServer Configuration Logger Handler Server).
Local Abbreviation Container :=
  (gmap string (@Binding Configuration Logger Handler Server)).

Implicit Types (this : ServerBuilder) (actions : list StartupAction)
  (container : Container) (name : string).

(** ** What [configure] can do to the container and the builder *)

Lemma invoke_lookup actions :
  forall this container this' container' name,
    invoke actions this container = Fulfilled (this', container') ->
    name ∉ bound_names actions ->
    container' !! name = container !! name.
Proof.
  induction actions as [|[factory|configuration|logger|bound instance|error]
                          actions IH];
    intros this container this' container' name Hrun Hfree; simpl in *.
  - by injection Hrun as <- <-.
  - by eapply IH.
  - by eapply IH.
  - by eapply IH.
  - apply not_elem_of_cons in Hfree as [Hne Hfree].
    rewrite (IH _ _ _ _ _ Hrun Hfree). by rewrite lookup_insert_ne.
  - done.
Qed.

Lemma invoke_bound actions :
  forall this container this' container' name,
    invoke actions this container = Fulfilled (this', container') ->
    is_Some (container !! name) -> is_Some (container' !! name).
Proof.
  induction actions as [|[factory|configuration|logger|bound instance|error]
                          actions IH];
    intros this container this' container' name Hrun Hsome; simpl in *.
  - by injection Hrun as <- <-.
  - by eapply IH.
  - by eapply IH.
  - by eapply IH.
  - eapply IH; [exact Hrun|].
    destruct (decide (bound = name)) as [->|Hne].
    + rewrite lookup_insert_eq. by eexists.
    + by rewrite lookup_insert_ne.
  - done.
Qed.

Lemma invoke_serverFactory actions :
  forall this container this' container',
    invoke actions this container = Fulfilled (this', container') ->
    serverFactory this' =
      from_option Some (serverFactory this) (last (factories actions)).
Proof.
  induction actions as [|[factory|configuration|logger|bound instance|error]
                          actions IH];
    intros this container this' container' Hrun; simpl in *.
  - by injection Hrun as <- <-.
  - rewrite (IH _ _ _ _ Hrun).
    change (factories (UseServerFactory factory :: actions))
      with (factory :: factories actions).
    destruct (factories actions) as [|other others]; [done|].
    destruct (last (other :: others)) eqn:Hlast; [by rewrite last_cons, Hlast|].
    by apply last_None in Hlast.
  - by rewrite (IH _ _ _ _ Hrun).
  - by rewrite (IH _ _ _ _ Hrun).
  - by rewrite (IH _ _ _ _ Hrun).
  - done.
Qed.

(** ** What [build] makes of the builder *)

(** The container before the startup class is looked at binds the nine
    standard names. *)
Lemma configureContainer_cases this default defaultLogger :
  match createConfiguration default this with
  | Rejected reason =>
      configureContainer default defaultLogger this = Rejected reason
  | Fulfilled configuration =>
      exists container,
        dom container = list_to_set standard_names /\
        container !! "requestHandler"
          = Some (BoundRequestHandler new_RequestHandler) /\
        container !! "configuration" = Some (BoundConfiguration configuration) /\
        container !! "logger"
          = Some (BoundLogger (createLogger defaultLogger this)) /\
        container !! "requestFactory" = Some (BoundConstructor "RequestFactory") /\
        configureContainer default defaultLogger this =
          match startupClass this with
          | Some class =>
              match construct class with
              | Rejected reason => Rejected reason
              | Fulfilled startupInstance =>
                  invoke (configure startupInstance) this container
              end
          | None => Fulfilled (this, container)
          end
  end.
Proof.
  unfold ServerBuilder.configureContainer.
  destruct (createConfiguration default this) as [configuration|reason];
    [|done].
  eexists. split; [|split; [|split; [|split; [|split; [|reflexivity]]]]].
  - simpl. rewrite !dom_insert_L, dom_empty_L. unfold standard_names. simpl.
    set_solver.
  - done.
  - done.
  - done.
  - done.
Qed.

(** X8.  Without a startup class and with a server factory, [build] calls the
    factory and has the server constructed from the node server it
    returns and from a container that binds exactly the nine standard
    names, among them the request handler made by the builder, the
    configuration and the logger; the server is bound last.  A failure of
    the factory or of the construction is the failure of [build]. *)
Theorem build_constructs_server_from_factory_and_standard_container
    this default defaultLogger configuration factory :
  startupClass this = None ->
  serverFactory this = Some factory ->
  createConfiguration default this = Fulfilled configuration ->
  exists container,
    dom container = list_to_set standard_names /\
    container !! "requestHandler" = Some (BoundRequestHandler new_RequestHandler) /\
    container !! "configuration" = Some (BoundConfiguration configuration) /\
    container !! "logger" = Some (BoundLogger (createLogger defaultLogger this)) /\
    container !! "requestFactory" = Some (BoundConstructor "RequestFactory") /\
    build default defaultLogger this =
      match factory () with
      | Rejected reason => Rejected reason
      | Fulfilled nodeServer =>
          match construct_Server container nodeServer with
          | Rejected reason => Rejected reason
          | Fulfilled server =>
              Fulfilled (server, <["server" := BoundServer server]> container)
          end
      end.
Proof.
  intros Hstartup Hfactory Hconfiguration.
  pose proof (configureContainer_cases this default defaultLogger) as Hcases.
  rewrite Hconfiguration, Hstartup in Hcases.
  destruct Hcases as (container & Hdom & Hh & Hc & Hl & Hf & Hsteps).
  exists container. repeat (split; [done|]).
  unfold ServerBuilder.build. by rewrite Hsteps, Hfactory.
Qed.

(** X9.  Whatever the startup class binds, the nine standard names are bound
    in the container from which the server is constructed. *)
Theorem standard_names_are_always_bound
    this default defaultLogger this' container name :
  configureContainer default defaultLogger this = Fulfilled (this', container) ->
  name ∈ standard_names ->
  is_Some (container !! name).
Proof.
  intros Hsteps Hname.
  pose proof (configureContainer_cases this default defaultLogger) as Hcases.
  destruct (createConfiguration default this) as [configuration|reason];
    [|by rewrite Hcases in Hsteps].
  destruct Hcases as (container0 & Hdom & _ & _ & _ & _ & Hsteps0).
  assert (is_Some (container0 !! name)) as Hbase.
  { apply elem_of_dom. rewrite Hdom. by apply elem_of_list_to_set. }
  rewrite Hsteps0 in Hsteps.
  destruct (startupClass this) as [class|].
  - destruct (construct class) as [instance|reason]; [|done].
    by eapply invoke_bound.
  - by injection Hsteps as <- <-.
Qed.

(** X10.  The server factory that counts is the one supplied last: the last one
    the [configure] of the startup class hands to the builder, or, when it
    hands none, the one the builder had when [build] was called.  [build]
    checks for that factory and calls it. *)
Theorem factory_supplied_last_is_used
    this default defaultLogger class instance this' container :
  startupClass this = Some class ->
  construct class = Fulfilled instance ->
  configureContainer default defaultLogger this = Fulfilled (this', container) ->
  serverFactory this' =
    from_option Some (serverFactory this) (last (factories (configure instance))) /\
  build default defaultLogger this =
    match
      from_option Some (serverFactory this) (last (factories (configure instance)))
    with
    | None => Rejected NoServerFactory
    | Some factory =>
        match factory () with
        | Rejected reason => Rejected reason
        | Fulfilled nodeServer =>
            match construct_Server container nodeServer with
            | Rejected reason => Rejected reason
            | Fulfilled server =>
                Fulfilled (server, <["server" := BoundServer server]> container)
            end
        end
    end.
Proof.
  intros Hstartup Hconstruct Hsteps.
  assert (serverFactory this' =
          from_option Some (serverFactory this)
            (last (factories (configure instance)))) as Hfactory.
  { pose proof (configureContainer_cases this default defaultLogger) as Hcases.
    destruct (createConfiguration default this) as [configuration|reason];
      [|by rewrite Hcases in Hsteps].
    destruct Hcases as (container0 & _ & _ & _ & _ & _ & Hsteps0).
    rewrite Hsteps0, Hstartup, Hconstruct in Hsteps.
    by eapply invoke_serverFactory. }
  split; [exact Hfactory|].
  unfold ServerBuilder.build. by rewrite Hsteps, Hfactory.
Qed.

(** X11.  A configuration or a logger given to the builder replaces the
    default: what [build] returns does not depend on the default
    configuration builder when a configuration was supplied, nor on the
    default logger builder when a logger was supplied.  Without a supplied
    configuration a failure of the default configuration builder is the
    failure of [build], whatever startup class and factory there are. *)
Theorem supplied_configuration_and_logger_replace_the_defaults this :
  (forall supplied default default' defaultLogger,
     configuration this = Some supplied ->
     build default defaultLogger this = build default' defaultLogger this) /\
  (forall supplied default defaultLogger defaultLogger',
     logger this = Some supplied ->
     build default defaultLogger this = build default defaultLogger' this) /\
  (forall reason defaultLogger,
     configuration this = None ->
     build (Rejected reason) defaultLogger this = Rejected reason).
Proof.
  split; [|split].
  - intros supplied default default' defaultLogger Hsupplied.
    unfold ServerBuilder.build, ServerBuilder.configureContainer,
      createConfiguration.
    by rewrite Hsupplied.
  - intros supplied default defaultLogger defaultLogger' Hsupplied.
    unfold ServerBuilder.build, ServerBuilder.configureContainer, createLogger.
    by rewrite Hsupplied.
  - intros reason defaultLogger Hnone.
    unfold ServerBuilder.build, ServerBuilder.configureContainer,
      createConfiguration.
    by rewrite Hnone.
Qed.

(** X12.  The configuration, the logger and the request handler are resolved
    before the startup class is configured: a [useConfiguration] or
    [useLogger] inside [configure] comes too late for this [build].  Unless
    [configure] binds the name itself, the container from which the server
    is constructed holds the configuration and the logger of the builder as
    it was when [build] was called. *)
Theorem container_holds_what_was_resolved_before_configure
    this default defaultLogger class instance this' container resolved :
  startupClass this = Some class ->
  construct class = Fulfilled instance ->
  createConfiguration default this = Fulfilled resolved ->
  configureContainer default defaultLogger this = Fulfilled (this', container) ->
  ("configuration" ∉ bound_names (configure instance) ->
   container !! "configuration" = Some (BoundConfiguration resolved)) /\
  ("logger" ∉ bound_names (configure instance) ->
   container !! "logger" = Some (BoundLogger (createLogger defaultLogger this))) /\
  ("requestHandler" ∉ bound_names (configure instance) ->
   container !! "requestHandler" = Some (BoundRequestHandler new_RequestHandler)).
Proof.
  intros Hstartup Hconstruct Hresolved Hsteps.
  pose proof (configureContainer_cases this default defaultLogger) as Hcases.
  rewrite Hresolved in Hcases.
  destruct Hcases as (container0 & _ & Hh & Hc & Hl & _ & Hsteps0).
  rewrite Hsteps0, Hstartup, Hconstruct in Hsteps.
  repeat split; intros Hfree;
    rewrite (invoke_lookup _ _ _ _ _ _ Hsteps Hfree); done.
Qed.

End Build.
Import Examples.

(** A builder with a factory and a configuration, no startup class. *)
Lemma build_from_factory_witness :
  exists container,
    dom container = list_to_set standard_names /\
    build tt (Rejected (Error "no default")) tt (fun _ _ => Fulfilled tt)
      builder_with_factory =
      Fulfilled (tt, <["server" := BoundServer tt]> container).
Proof.
  destruct (build_constructs_server_from_factory_and_standard_container
              tt (fun _ _ => Fulfilled tt) builder_with_factory
              (Rejected (Error "no default")) tt tt (fun _ => Fulfilled tt)
              eq_refl eq_refl eq_refl)
    as (container & Hdom & _ & _ & _ & _ & Hbuild).
  exists container. split; [exact Hdom|exact Hbuild].
Defined.

(** A builder whose startup class binds a name of its own: the logger
    stays bound. *)
Lemma standard_names_witness :
  exists this' container,
    configureContainer tt (Fulfilled tt) tt builder_with_startup =
      Fulfilled (this', container) /\
    "logger" ∈ standard_names /\
    is_Some (container !! "logger").
Proof.
  eexists _, _. split; [reflexivity|].
  assert ("logger" ∈ standard_names) as Hname
    by (unfold standard_names; do 4 apply list_elem_of_further;
        apply list_elem_of_here).
  split; [exact Hname|].
  exact (standard_names_are_always_bound tt builder_with_startup
           (Fulfilled tt) tt _ _ "logger" eq_refl Hname).
Defined.

(** A builder without a factory whose startup class supplies one. *)
Lemma factory_supplied_witness :
  serverFactory builder_with_startup = None /\
  exists container,
    build tt (Fulfilled tt) tt (fun _ _ => Fulfilled tt) builder_with_startup =
      Fulfilled (tt, container).
Proof.
  split; [reflexivity|].
  destruct (factory_supplied_last_is_used tt (fun _ _ => Fulfilled tt)
              builder_with_startup (Fulfilled tt) tt supplying_startup
              _ _ _ eq_refl eq_refl eq_refl) as [_ Hbuild].
  eexists. exact Hbuild.
Defined.

(** The startup class calls [useConfiguration]: the builder has the new
    configuration afterwards, the container has the one resolved before. *)
Lemma resolved_before_configure_witness :
  exists this' container,
    configureContainer tt (Rejected (Error "no default")) tt
      (useConfiguration builder_with_startup tt) =
      Fulfilled (this', container) /\
    configuration this' = Some tt /\
    container !! "configuration" = Some (BoundConfiguration tt).
Proof.
  eexists _, _. split; [reflexivity|].
  split; [reflexivity|].
  destruct (container_holds_what_was_resolved_before_configure tt
              (useConfiguration builder_with_startup tt)
              (Rejected (Error "no default")) tt supplying_startup
              _ _ _ tt eq_refl eq_refl eq_refl eq_refl) as [Hc _].
  apply Hc. simpl.
  apply not_elem_of_cons. split; [discriminate|apply not_elem_of_nil].
Defined.

(** A builder with a configuration does not need the default one. *)
Lemma supplied_configuration_witness :
  build tt (Rejected (Error "no default")) tt (fun _ _ => Fulfilled tt)
    builder_with_factory =
  build tt (Fulfilled tt) tt (fun _ _ => Fulfilled tt) builder_with_factory.
Proof.
  destruct (supplied_configuration_and_logger_replace_the_defaults tt
              (fun _ _ => Fulfilled tt) builder_with_factory) as [Hsame _].
  exact (Hsame tt (Rejected (Error "no default")) (Fulfilled tt) tt eq_refl).
Defined.

End ServerBuilderExtras.
